(** * Inbound media normalisation of openclaw-china: file classification,
      message extraction and context assembly.

    The development follows the TypeScript sources:
    - [shared/file/file-utils.ts]: [resolveFileCategory], [resolveExtension]
      and their tables (module [FileUtils]);
    - [dingtalk/src/inbound-context.property.test.ts]:
      [assignMediaFieldsToContext] (module [InboundContext]);
    - [dingtalk/src/media.ts] is not part of the sources at hand; the two
      parsers it exports are modelled from the specification
      (module [Media]). *)

From stdpp Require Import gmap strings list.
From Stdlib Require Import ZArith Ascii String.

Local Open Scope string_scope.

(** ** JavaScript strings

    A string is a sequence of UTF-16 code units.  The model covers the code
    units below 256 (one [ascii] each); on that range [toLowerCase] and
    [trim] are those of ECMAScript. *)
Module JsString.

Definition isUpperCode (n : N) : bool :=
  ((65 <=? n) && (n <=? 90) || (192 <=? n) && (n <=? 222) && negb (n =? 215))%N.

Definition toLowerChar (c : ascii) : ascii :=
  let n := N_of_ascii c in
  if isUpperCode n then ascii_of_N (n + 32) else c.

Fixpoint toLowerCase (s : string) : string :=
  match s with
  | EmptyString => EmptyString
  | String c r => String (toLowerChar c) (toLowerCase r)
  end.

(** White space of [String.prototype.trim] among the code units below 256:
    TAB, LF, VT, FF, CR, SP and NBSP. *)
Definition isWhiteSpace (c : ascii) : bool :=
  let n := N_of_ascii c in
  ((9 <=? n) && (n <=? 13) || (n =? 32) || (n =? 160))%N.

Fixpoint trimStart (s : string) : string :=
  match s with
  | EmptyString => EmptyString
  | String c r => if isWhiteSpace c then trimStart r else s
  end.

Fixpoint trimEnd (s : string) : string :=
  match s with
  | EmptyString => EmptyString
  | String c r =>
      match trimEnd r with
      | EmptyString => if isWhiteSpace c then EmptyString else String c EmptyString
      | r' => String c r'
      end
  end.

Definition trim (s : string) : string := trimEnd (trimStart s).

(** [s.split(sep)[0]]: the part of [s] before the first [sep]. *)
Fixpoint splitFirst (s : string) (sep : ascii) : string :=
  match s with
  | EmptyString => EmptyString
  | String c r => if Ascii.eqb c sep then EmptyString else String c (splitFirst r sep)
  end.

Definition startsWith (s p : string) : bool := String.prefix p s.

Definition length (s : string) : Z := Z.of_nat (String.length s).

(** [s.lastIndexOf(c)]: index of the last occurrence, [-1] when there is
    none.  [i] is the index of the head of [s], [found] the last index
    seen so far. *)
Fixpoint lastIndexOfFrom (s : string) (c : ascii) (i found : Z) : Z :=
  match s with
  | EmptyString => found
  | String a r => lastIndexOfFrom r c (i + 1) (if Ascii.eqb a c then i else found)
  end.

Definition lastIndexOf (s : string) (c : ascii) : Z := lastIndexOfFrom s c 0 (-1).

Fixpoint drop (n : nat) (s : string) : string :=
  match n, s with
  | O, _ => s
  | S _, EmptyString => EmptyString
  | S n', String _ r => drop n' r
  end.

(** [s.slice(start)]: a negative [start] counts from the end. *)
Definition slice (s : string) (start : Z) : string :=
  let len := length s in
  let from := if (start <? 0)%Z then Z.max (len + start) 0 else Z.min start len in
  drop (Z.to_nat from) s.

Fixpoint contains (s : string) (c : ascii) : bool :=
  match s with
  | EmptyString => false
  | String a r => Ascii.eqb a c || contains r c
  end.

(** Truthiness of a string: every string but the empty one. *)
Definition truthy (s : string) : bool :=
  match s with EmptyString => false | _ => true end.

End JsString.

(** ** Property access on object literals

    The three tables of [file-utils.ts] are object literals.  The [in]
    operator and the bracket access consult the prototype chain, so every
    literal also answers for the properties of [Object.prototype]. *)
Module JsObject.

Inductive JsValue (A : Type) : Type :=
| Val (a : A)              (* a value stored in the literal *)
| Builtin (name : string)  (* a member of Object.prototype *)
| Undefined.
Arguments Val {A} a.
Arguments Builtin {A} name.
Arguments Undefined {A}.

Definition Literal (A : Type) : Type := list (string * A).

Definition objectPrototype : list string :=
  [ "constructor"; "__defineGetter__"; "__defineSetter__"; "hasOwnProperty";
    "__lookupGetter__"; "__lookupSetter__"; "isPrototypeOf";
    "propertyIsEnumerable"; "toString"; "valueOf"; "__proto__";
    "toLocaleString" ].

Fixpoint own {A} (o : Literal A) (k : string) : option A :=
  match o with
  | [] => None
  | (k', v) :: o' => if String.eqb k' k then Some v else own o' k
  end.

Definition inherited (k : string) : bool :=
  existsb (String.eqb k) objectPrototype.

(** [k in o] *)
Definition hasProperty {A} (o : Literal A) (k : string) : bool :=
  match own o k with
  | Some _ => true
  | None => inherited k
  end.

(** [o[k]] *)
Definition get {A} (o : Literal A) (k : string) : JsValue A :=
  match own o k with
  | Some v => Val v
  | None => if inherited k then Builtin k else Undefined
  end.

End JsObject.

(** ** shared/file/file-utils.ts *)
Module FileUtils.
Import JsString JsObject.

Inductive FileCategory : Type :=
| image | audio | video | document | archive | code | other.

Definition MIME_TO_EXTENSION : Literal string :=
  [ ("image/jpeg", ".jpg"); ("image/png", ".png"); ("image/gif", ".gif");
    ("image/webp", ".webp"); ("image/bmp", ".bmp");
    ("audio/mpeg", ".mp3"); ("audio/wav", ".wav"); ("audio/ogg", ".ogg");
    ("audio/amr", ".amr"); ("audio/x-m4a", ".m4a");
    ("video/mp4", ".mp4"); ("video/quicktime", ".mov");
    ("video/x-msvideo", ".avi"); ("video/webm", ".webm");
    ("application/pdf", ".pdf"); ("application/msword", ".doc");
    ("application/vnd.openxmlformats-officedocument.wordprocessingml.document", ".docx");
    ("application/vnd.ms-excel", ".xls");
    ("application/vnd.openxmlformats-officedocument.spreadsheetml.sheet", ".xlsx");
    ("application/vnd.ms-powerpoint", ".ppt");
    ("application/vnd.openxmlformats-officedocument.presentationml.presentation", ".pptx");
    ("application/rtf", ".rtf");
    ("application/vnd.oasis.opendocument.text", ".odt");
    ("application/vnd.oasis.opendocument.spreadsheet", ".ods");
    ("text/plain", ".txt"); ("text/markdown", ".md"); ("text/csv", ".csv");
    ("application/zip", ".zip"); ("application/x-rar-compressed", ".rar");
    ("application/vnd.rar", ".rar"); ("application/x-7z-compressed", ".7z");
    ("application/x-tar", ".tar"); ("application/gzip", ".gz");
    ("application/x-gzip", ".gz"); ("application/x-bzip2", ".bz2");
    ("application/json", ".json"); ("application/xml", ".xml");
    ("text/xml", ".xml"); ("text/html", ".html"); ("text/css", ".css");
    ("text/javascript", ".js"); ("application/javascript", ".js");
    ("text/x-python", ".py"); ("text/x-java-source", ".java");
    ("text/x-c", ".c"); ("text/x-yaml", ".yaml");
    ("application/x-yaml", ".yaml") ].

Definition CATEGORY_BY_MIME : Literal FileCategory :=
  [ ("application/pdf", document); ("application/msword", document);
    ("application/vnd.openxmlformats-officedocument.wordprocessingml.document", document);
    ("application/vnd.ms-excel", document);
    ("application/vnd.openxmlformats-officedocument.spreadsheetml.sheet", document);
    ("application/vnd.ms-powerpoint", document);
    ("application/vnd.openxmlformats-officedocument.presentationml.presentation", document);
    ("application/rtf", document);
    ("application/vnd.oasis.opendocument.text", document);
    ("application/vnd.oasis.opendocument.spreadsheet", document);
    ("text/plain", document); ("text/markdown", document); ("text/csv", document);
    ("application/zip", archive); ("application/x-rar-compressed", archive);
    ("application/vnd.rar", archive); ("application/x-7z-compressed", archive);
    ("application/x-tar", archive); ("application/gzip", archive);
    ("application/x-gzip", archive); ("application/x-bzip2", archive);
    ("application/json", code); ("application/xml", code); ("text/xml", code);
    ("text/html", code); ("text/css", code); ("text/javascript", code);
    ("application/javascript", code); ("text/x-python", code);
    ("text/x-java-source", code); ("text/x-c", code); ("text/x-yaml", code);
    ("application/x-yaml", code) ].

Definition CATEGORY_BY_EXTENSION : Literal FileCategory :=
  [ (".jpg", image); (".jpeg", image); (".png", image); (".gif", image);
    (".webp", image); (".bmp", image);
    (".mp3", audio); (".wav", audio); (".ogg", audio); (".m4a", audio);
    (".amr", audio);
    (".mp4", video); (".mov", video); (".avi", video); (".mkv", video);
    (".webm", video);
    (".pdf", document); (".doc", document); (".docx", document);
    (".txt", document); (".md", document); (".rtf", document);
    (".odt", document); (".xls", document); (".xlsx", document);
    (".csv", document); (".ods", document); (".ppt", document);
    (".pptx", document);
    (".zip", archive); (".rar", archive); (".7z", archive); (".tar", archive);
    (".gz", archive); (".bz2", archive);
    (".py", code); (".js", code); (".ts", code); (".jsx", code);
    (".tsx", code); (".java", code); (".cpp", code); (".c", code);
    (".go", code); (".rs", code); (".json", code); (".xml", code);
    (".yaml", code); (".yml", code); (".html", code); (".css", code) ].

Definition extractExtension (fileName : string) : string :=
  let lastDot := lastIndexOf fileName "."%char in
  if ((lastDot =? -1) || (lastDot =? length fileName - 1))%Z then ""
  else toLowerCase (slice fileName lastDot).

(** [contentType.split(";")[0].trim().toLowerCase()] *)
Definition normalizeMime (contentType : string) : string :=
  toLowerCase (trim (splitFirst contentType ";"%char)).

(** An optional parameter is truthy when it is supplied and not empty. *)
Definition supplied (fileName : option string) : option string :=
  match fileName with
  | Some f => if truthy f then Some f else None
  | None => None
  end.

Definition resolveFileCategory (contentType : string) (fileName : option string)
  : JsValue FileCategory :=
  let mimeType := normalizeMime contentType in
  if startsWith mimeType "image/" then Val image
  else if startsWith mimeType "audio/" then Val audio
  else if startsWith mimeType "video/" then Val video
  else if hasProperty CATEGORY_BY_MIME mimeType then get CATEGORY_BY_MIME mimeType
  else
    match supplied fileName with
    | Some f =>
        let ext := extractExtension f in
        if truthy ext && hasProperty CATEGORY_BY_EXTENSION ext
        then get CATEGORY_BY_EXTENSION ext
        else Val other
    | None => Val other
    end.

Definition resolveExtension (contentType : string) (fileName : option string)
  : JsValue string :=
  (* Priority 1: fileName extension *)
  let fromName :=
    match supplied fileName with
    | Some f =>
        let ext := extractExtension f in
        if truthy ext then Some ext else None
    | None => None
    end in
  match fromName with
  | Some ext => Val ext
  | None =>
      (* Priority 2: MIME type mapping *)
      let mimeType := normalizeMime contentType in
      if hasProperty MIME_TO_EXTENSION mimeType
      then get MIME_TO_EXTENSION mimeType
      else Val ".bin" (* Priority 3: default *)
  end.

End FileUtils.

(** ** Specification-side notions for the file classifier *)
Module FileSpec.
Import JsString JsObject FileUtils.

(** The part of a name after its last ['.'], when it has one. *)
Fixpoint afterLastDot (s : string) : option string :=
  match s with
  | EmptyString => None
  | String c r =>
      match afterLastDot r with
      | Some suf => Some suf
      | None => if Ascii.eqb c "."%char then Some r else None
      end
  end.

(** The extension of a name: the lower-cased substring from the last ['.']
    to the end; a name without ['.'] or ending in ['.'] has none. *)
Definition trailingExtension (fileName : string) : option string :=
  match afterLastDot fileName with
  | Some (String c r) => Some (toLowerCase (String "."%char (String c r)))
  | _ => None
  end.

(** Normalisation as the specification words it: cut at the first [';'],
    then lower-case. *)
Definition truncateLower (contentType : string) : string :=
  toLowerCase (splitFirst contentType ";"%char).

(** The resolution order of [resolveFileCategory], for a given
    normalisation of the content type. *)
Definition categoryByOrder (normalize : string -> string)
    (contentType : string) (fileName : option string) : FileCategory :=
  let m := normalize contentType in
  if String.prefix "image/" m then image
  else if String.prefix "audio/" m then audio
  else if String.prefix "video/" m then video
  else
    match own CATEGORY_BY_MIME m with
    | Some c => c
    | None =>
        match fileName ≫= trailingExtension with
        | Some e => default other (own CATEGORY_BY_EXTENSION e)
        | None => other
        end
    end.

(** The resolution order of [resolveExtension]. *)
Definition extensionByOrder (contentType : string) (fileName : option string)
  : string :=
  match fileName ≫= trailingExtension with
  | Some e => e
  | None => default ".bin" (own MIME_TO_EXTENSION (normalizeMime contentType))
  end.

End FileSpec.


(** ** Objects on the heap

    A context is a JavaScript object: a finite map from property names to
    values, living at a location of the heap.  A function receives and
    returns references; writing to a property updates the heap in place. *)
Module JsHeap.

(** Property values of a context.  Arrays are the string arrays built by
    [Array.prototype.map]; none is updated in place. *)
Inductive Value : Type :=
| VUndefined
| VString (s : string)
| VNumber (n : Z)
| VBoolean (b : bool)
| VStrings (l : list string).

Abbreviation Obj := (gmap string Value).
Abbreviation loc := positive.
Abbreviation Heap := (gmap positive (gmap string Value)).

(** Reading [o.k]: an absent property reads as [undefined]. *)
Definition read (o : Obj) (k : string) : Value := default VUndefined (o !! k).

(** Computations on the heap.  A computation fails only on a reference
    that points nowhere, which no JavaScript program can hold. *)
Definition M (A : Type) : Type := Heap -> option (A * Heap).

Definition ret {A} (a : A) : M A := fun h => Some (a, h).

Definition bind {A B} (k : A -> M B) (m : M A) : M B :=
  fun h => match m h with
           | Some (a, h') => k a h'
           | None => None
           end.

#[global] Instance M_ret : MRet M := @ret.
#[global] Instance M_bind : MBind M := @bind.

(** [{ ...l }]: a new object with the own properties of the object at [l]. *)
Definition spread (l : loc) : M loc :=
  fun h => match h !! l with
           | Some o => let l' := fresh (dom h) in Some (l', <[l' := o]> h)
           | None => None
           end.

(** [l.k = v] *)
Definition assign (l : loc) (k : string) (v : Value) : M unit :=
  fun h => match h !! l with
           | Some o => Some (tt, <[l := <[k := v]> o]> h)
           | None => None
           end.

(** [if (c) { m }] *)
Definition when (c : bool) (m : M unit) : M unit :=
  if c then m else ret tt.

(** [if (x) { k x }] for a nullable [x]. *)
Definition whenSome {A} (x : option A) (k : A -> M unit) : M unit :=
  match x with
  | Some a => k a
  | None => ret tt
  end.

End JsHeap.

(** ** Types exported by dingtalk/src/media.ts *)
Module MediaTypes.

(** Modelled from the spec: the type [MediaMsgType] of [media.ts], the
    four tags of single-media messages. *)
Inductive MediaMsgType : Type := picture | video | audio | file.

#[global] Instance MediaMsgType_eq_dec : EqDecision MediaMsgType.
Proof. solve_decision. Defined.

(** Modelled from the spec: the type [DownloadedFile] of [media.ts],
    [{ path, contentType, size, fileName? }]. *)
Module DownloadedFile.
Record t : Type := mk {
  path : string;
  contentType : string;
  size : Z;
  fileName : option string
}.
End DownloadedFile.

(** Modelled from the spec: the type [ExtractedFileInfo] of [media.ts],
    [{ downloadCode, msgType, fileName?, fileSize?, duration?,
    recognition? }]. *)
Module ExtractedFileInfo.
Record t : Type := mk {
  downloadCode : string;
  msgType : MediaMsgType;
  fileName : option string;
  fileSize : option Z;
  duration : option Z;
  recognition : option string
}.
End ExtractedFileInfo.

End MediaTypes.

(** ** dingtalk/src/inbound-context.property.test.ts *)
Module InboundContext.
Import JsString JsHeap MediaTypes.

(** A nullable string is truthy when it is a non-empty string. *)
Definition truthyString (s : option string) : option string :=
  match s with
  | Some s' => if truthy s' then Some s' else None
  | None => None
  end.

Definition assignMediaFieldsToContext
    (inboundCtx : loc)
    (downloadedMedia : option DownloadedFile.t)
    (extractedFileInfo : option ExtractedFileInfo.t)
    (downloadedRichTextImages : list DownloadedFile.t)
    (mediaBody : option string) : M loc :=
  ctx ← spread inboundCtx;
  whenSome downloadedMedia (fun downloadedMedia =>
    assign ctx "MediaPath" (VString (DownloadedFile.path downloadedMedia)) ;;
    assign ctx "MediaType" (VString (DownloadedFile.contentType downloadedMedia)) ;;
    whenSome (truthyString mediaBody) (fun mediaBody =>
      assign ctx "Body" (VString mediaBody) ;;
      assign ctx "RawBody" (VString mediaBody) ;;
      assign ctx "CommandBody" (VString mediaBody)) ;;
    whenSome extractedFileInfo (fun info =>
      when (bool_decide (ExtractedFileInfo.msgType info = file)) (
        whenSome (truthyString (ExtractedFileInfo.fileName info)) (fun fileName =>
          assign ctx "FileName" (VString fileName)) ;;
        whenSome (ExtractedFileInfo.fileSize info) (fun fileSize =>
          assign ctx "FileSize" (VNumber fileSize)))) ;;
    whenSome extractedFileInfo (fun info =>
      when (bool_decide (ExtractedFileInfo.msgType info = audio))
        (whenSome (truthyString (ExtractedFileInfo.recognition info)) (fun recognition =>
           assign ctx "Transcript" (VString recognition))))) ;;
  when (0 <? Z.of_nat (List.length downloadedRichTextImages))%Z (
    assign ctx "MediaPaths" (VStrings (map DownloadedFile.path downloadedRichTextImages)) ;;
    assign ctx "MediaTypes" (VStrings (map DownloadedFile.contentType downloadedRichTextImages)) ;;
    whenSome (truthyString mediaBody) (fun mediaBody =>
      assign ctx "Body" (VString mediaBody) ;;
      assign ctx "RawBody" (VString mediaBody) ;;
      assign ctx "CommandBody" (VString mediaBody))) ;;
  ret ctx.

End InboundContext.

(** ** Sample values *)
Module Samples.
Import JsHeap MediaTypes.

Definition baseCtx : Obj :=
  <["CommandBody" := VString "hello"]>
    (<["RawBody" := VString "hello"]> {["Body" := VString "hello"]}).

(** A context that already carries a remote link. *)
Definition linkedCtx : Obj :=
  <["MediaUrl" := VString "https://cdn.example/a.png"]> baseCtx.

Definition photo : DownloadedFile.t :=
  DownloadedFile.mk "/tmp/dingtalk-file-a.png" "image/png" 2048 None.

Definition scan : DownloadedFile.t :=
  DownloadedFile.mk "/tmp/dingtalk-file-b.jpg" "image/jpeg" 4096 None.

Definition report : ExtractedFileInfo.t :=
  ExtractedFileInfo.mk "code-0000001" file (Some "a.pdf") (Some 10%Z) None None.

Definition voice : ExtractedFileInfo.t :=
  ExtractedFileInfo.mk "code-0000002" audio None None (Some 3000%Z) (Some "hello").

End Samples.

(** ** dingtalk/src/media.ts: the two message parsers *)
Module Media.
Import JsString MediaTypes.

(** JavaScript values as they reach the parsers.  An object is the list
    of its own properties. *)
#[warnings="-register-all"] Inductive Js : Type :=
| JUndefined
| JNull
| JBoolean (b : bool)
| JNumber (n : Z)
| JString (s : string)
| JArray (items : list Js)
| JObject (fields : list (string * Js)).

(** The result of an evaluation that may throw. *)
Inductive Outcome (A : Type) : Type :=
| Returned (a : A)
| Thrown.
Arguments Returned {A} a.
Arguments Thrown {A}.

(** [try { m } catch { return a }] *)
Definition tryCatch {A} (m : Outcome A) (a : A) : Outcome A :=
  match m with
  | Returned r => Returned r
  | Thrown => Returned a
  end.

Definition andThen {A B} (m : Outcome A) (k : A -> Outcome B) : Outcome B :=
  match m with
  | Returned a => k a
  | Thrown => Thrown
  end.

(** [o.k]: [undefined] when [o] has no such property. *)
Fixpoint field (o : list (string * Js)) (k : string) : Js :=
  match o with
  | [] => JUndefined
  | (k', v) :: o' => if String.eqb k' k then v else field o' k
  end.

(** A property that holds a non-empty string. *)
Definition codeField (o : list (string * Js)) (k : string) : option string :=
  match field o k with
  | JString s => if truthy s then Some s else None
  | _ => None
  end.

Definition textField (o : list (string * Js)) (k : string) : option string :=
  match field o k with
  | JString s => Some s
  | _ => None
  end.

Definition numberField (o : list (string * Js)) (k : string) : option Z :=
  match field o k with
  | JNumber n => Some n
  | _ => None
  end.

(** The tag of a single-media message. *)
Definition mediaTag (v : Js) : option MediaMsgType :=
  match v with
  | JString s =>
      if String.eqb s "picture" then Some picture
      else if String.eqb s "video" then Some video
      else if String.eqb s "audio" then Some audio
      else if String.eqb s "file" then Some file
      else None
  | _ => None
  end.

(** Modelled from the spec: [RichTextParseResult] of [media.ts], three
    ordered sequences.  A text payload and a user identifier are entered
    as the element holds them - strings in a well-formed message - since
    the spec names no test on them; an image code is a download code, a
    non-empty string. *)
Record RichTextParseResult : Type := mkRichText {
  textParts : list Js;
  imageCodes : list string;
  mentions : list Js
}.

Inductive ElementKind : Type := KText | KPicture | KAt.

(** The [type] tag of a rich-text element; an element without tag counts
    as text. *)
Definition elementKind (e : list (string * Js)) : option ElementKind :=
  match field e "type" with
  | JUndefined => Some KText
  | JString s =>
      if String.eqb s "text" then Some KText
      else if String.eqb s "picture" then Some KPicture
      else if String.eqb s "at" then Some KAt
      else None
  | _ => None
  end.

(** The ordered candidates for the download code of each message type. *)
Definition codeCandidates (t : MediaMsgType) : list string :=
  match t with
  | picture => ["downloadCode"; "pictureDownloadCode"]
  | video => ["downloadCode"; "videoDownloadCode"]
  | audio => ["downloadCode"]
  | file => ["downloadCode"]
  end.

Fixpoint firstCode (o : list (string * Js)) (candidates : list string) : option string :=
  match candidates with
  | [] => None
  | k :: ks =>
      match codeField o k with
      | Some c => Some c
      | None => firstCode o ks
      end
  end.

Definition describe (t : MediaMsgType) (content : list (string * Js))
  : option ExtractedFileInfo.t :=
  match firstCode content (codeCandidates t) with
  | None => None
  | Some c =>
      Some (ExtractedFileInfo.mk c t
        (match t with file => textField content "fileName" | _ => None end)
        (match t with file => numberField content "fileSize" | _ => None end)
        (match t with video | audio => numberField content "duration" | _ => None end)
        (match t with audio => textField content "recognition" | _ => None end))
  end.

(** Modelled from the spec: one element of the list (section 4.3), added
    in front of what the rest of the list gave.  Every text element adds
    its text payload and every at element its user identifier; a picture
    element adds its download code and is skipped when it has none. *)
Definition addElement (e : Js) (acc : RichTextParseResult) : RichTextParseResult :=
  match e with
  | JObject f =>
      match elementKind f with
      | Some KText =>
          mkRichText (field f "text" :: textParts acc) (imageCodes acc) (mentions acc)
      | Some KPicture =>
          match firstCode f (codeCandidates picture) with
          | Some c => mkRichText (textParts acc) (c :: imageCodes acc) (mentions acc)
          | None => acc
          end
      | Some KAt =>
          mkRichText (textParts acc) (imageCodes acc) (field f "userId" :: mentions acc)
      | None => acc
      end
  | _ => acc
  end.

Definition collect (items : list Js) : RichTextParseResult :=
  foldr addElement (mkRichText [] [] []) items.

(** The elements of one kind, in the order of the list. *)
Definition isKind (k : ElementKind) (e : Js) : bool :=
  match e with
  | JObject f =>
      match elementKind f, k with
      | Some KText, KText | Some KPicture, KPicture | Some KAt, KAt => true
      | _, _ => false
      end
  | _ => false
  end.

Definition elementsOf (k : ElementKind) (items : list Js) : list Js :=
  List.filter (isKind k) items.

(** The property an element of a kind contributes. *)
Definition payload (k : ElementKind) (e : Js) : Js :=
  match e, k with
  | JObject f, KText => field f "text"
  | JObject f, KAt => field f "userId"
  | _, _ => JUndefined
  end.

(** The download code of a picture element, if it has one. *)
Definition pictureCode (e : Js) : option string :=
  match e with
  | JObject f => firstCode f (codeCandidates picture)
  | _ => None
  end.

Section Parsers.

(** [JSON.parse]: [None] stands for the [SyntaxError] it throws on a
    text that is not JSON. *)
Variable JSON_parse : string -> option Js.

Definition parseJson (s : string) : Outcome Js :=
  match JSON_parse s with
  | Some v => Returned v
  | None => Thrown
  end.

(** A payload that is a record, or a string that encodes one. *)
Definition asRecord (v : Js) : Outcome (option (list (string * Js))) :=
  match v with
  | JObject f => Returned (Some f)
  | JString s =>
      andThen (parseJson s) (fun parsed =>
        match parsed with
        | JObject f => Returned (Some f)
        | _ => Returned None
        end)
  | _ => Returned None
  end.

(** A list that is an array, or a string that encodes one. *)
Definition asList (v : Js) : Outcome (option (list Js)) :=
  match v with
  | JArray l => Returned (Some l)
  | JString s =>
      andThen (parseJson s) (fun parsed =>
        match parsed with
        | JArray l => Returned (Some l)
        | _ => Returned None
        end)
  | _ => Returned None
  end.

(** Modelled from the spec: [extractFileFromMessage] of [media.ts]
    (section 4.2).  Only the four media tags are accepted; the payload
    is a record or a string that is parsed, a parse failure giving
    [null]; the download code comes from the per-type candidates, and
    without one the result is [null]; the extras of the type are
    carried over.  The tag is read from [msgtype], as the tests and
    [types.ts] spell it. *)
Definition extractFileFromMessage (raw : Js)
  : Outcome (option ExtractedFileInfo.t) :=
  match raw with
  | JObject msg =>
      match mediaTag (field msg "msgtype") with
      | Some t =>
          tryCatch
            (andThen (asRecord (field msg "content")) (fun content =>
               Returned (content ≫= describe t)))
            None
      | None => Returned None
      end
  | _ => Returned None
  end.

(** Modelled from the spec: [parseRichTextMessage] of [media.ts]
    (section 4.3).  Only the [richText] tag is accepted; the payload and,
    inside it, the element list are each a structure or a string that
    is parsed, a parse failure at either place giving [null]; an empty
    element list gives [null]; otherwise the elements are projected, in
    order, onto texts, image codes and mentions. *)
Definition parseRichTextMessage (raw : Js)
  : Outcome (option RichTextParseResult) :=
  match raw with
  | JObject msg =>
      match field msg "msgtype" with
      | JString tag =>
          if String.eqb tag "richText" then
            tryCatch
              (andThen (asRecord (field msg "content")) (fun content =>
                 match content with
                 | Some c =>
                     andThen (asList (field c "richText")) (fun items =>
                       match items with
                       | Some (e :: es) => Returned (Some (collect (e :: es)))
                       | _ => Returned None
                       end)
                 | None => Returned None
                 end))
              None
          else Returned None
      | _ => Returned None
      end
  | _ => Returned None
  end.

(** *** Malformed input *)




End Parsers.

(** A stand-in for [JSON.parse] that knows two texts. *)
Definition toyParse (s : string) : option Js :=
  if String.eqb s "{'downloadCode':'json-pic-333'}"
  then Some (JObject [("downloadCode", JString "json-pic-333")])
  else if String.eqb s "[]" then Some (JArray [])
  else None.


End Media.

(** ** Notions used to reason about the context assembly *)
Module ContextLogic.
Import JsString JsHeap MediaTypes InboundContext.

(** [rewrites l m f]: on any heap where [l] holds an object [o], [m]
succeeds and leaves a heap that differs only at [l], which now holds
[f o]. *)
Definition rewrites (l : loc) (m : M unit) (f : Obj -> Obj) : Prop :=
  forall (h : Heap) (o : Obj),
    h !! l = Some o -> m h = Some (tt, <[l := f o]> h).

(** [returns m h P]: from the heap [h] the call [m] returns a reference
    [l], leaving a heap [h'] in which [l] holds an object [o], with
    [P l h' o]. *)
Definition returns (m : M loc) (h : Heap) (P : loc -> Heap -> Obj -> Prop) : Prop :=
  exists l h' o, m h = Some (l, h') /\ h' !! l = Some o /\ P l h' o.

(** ** The record built by [assignMediaFieldsToContext] *)

Definition withBody (mediaBody : option string) : Obj -> Obj :=
  match truthyString mediaBody with
  | Some s =>
      insert "CommandBody" (VString s) ∘
      (insert "RawBody" (VString s) ∘ insert "Body" (VString s))
  | None => id
  end.

Definition withFile (extractedFileInfo : option ExtractedFileInfo.t) : Obj -> Obj :=
  match extractedFileInfo with
  | Some info =>
      if bool_decide (ExtractedFileInfo.msgType info = file) then
        match ExtractedFileInfo.fileSize info with
        | Some z => insert "FileSize" (VNumber z)
        | None => id
        end ∘
        match truthyString (ExtractedFileInfo.fileName info) with
        | Some n => insert "FileName" (VString n)
        | None => id
        end
      else id
  | None => id
  end.

Definition withTranscript (extractedFileInfo : option ExtractedFileInfo.t) : Obj -> Obj :=
  match extractedFileInfo with
  | Some info =>
      if bool_decide (ExtractedFileInfo.msgType info = audio) then
        match truthyString (ExtractedFileInfo.recognition info) with
        | Some t => insert "Transcript" (VString t)
        | None => id
        end
      else id
  | None => id
  end.

Definition withMedia (downloadedMedia : option DownloadedFile.t)
    (extractedFileInfo : option ExtractedFileInfo.t)
    (mediaBody : option string) : Obj -> Obj :=
  match downloadedMedia with
  | Some d =>
      withTranscript extractedFileInfo ∘
      (withFile extractedFileInfo ∘
       (withBody mediaBody ∘
        (insert "MediaType" (VString (DownloadedFile.contentType d)) ∘
         insert "MediaPath" (VString (DownloadedFile.path d)))))
  | None => id
  end.

Definition withImages (downloadedRichTextImages : list DownloadedFile.t)
    (mediaBody : option string) : Obj -> Obj :=
  if (0 <? Z.of_nat (List.length downloadedRichTextImages))%Z then
    withBody mediaBody ∘
    (insert "MediaTypes" (VStrings (map DownloadedFile.contentType downloadedRichTextImages)) ∘
     insert "MediaPaths" (VStrings (map DownloadedFile.path downloadedRichTextImages)))
  else id.

Definition overlay downloadedMedia extractedFileInfo downloadedRichTextImages
    mediaBody (base : Obj) : Obj :=
  withImages downloadedRichTextImages mediaBody
    (withMedia downloadedMedia extractedFileInfo mediaBody base).

End ContextLogic.

(** ** Well-formed extensions *)
Module FileShape.
Import JsString JsObject FileUtils FileSpec.

(** A dot followed by at least one character, none of them a dot and none
    changed by lower-casing. *)
Definition isExtension (e : string) : bool :=
  match e with
  | String c r =>
      Ascii.eqb c "."%char && truthy r && negb (contains r "."%char) &&
      String.eqb (toLowerCase r) r
  | EmptyString => false
  end.

(** The extension that the resolvers read from an optional file name: the
    empty string when there is no name or the name has no extension. *)
Definition nameExtension (fileName : option string) : string :=
  default EmptyString (fileName ≫= trailingExtension).

(** [resolveFileCategory] as a function of the normalised content type and
    of the extension read from the name. *)
Definition classify (m ext : string) : JsValue FileCategory :=
  if startsWith m "image/" then Val image
  else if startsWith m "audio/" then Val audio
  else if startsWith m "video/" then Val video
  else if hasProperty CATEGORY_BY_MIME m then get CATEGORY_BY_MIME m
  else if truthy ext && hasProperty CATEGORY_BY_EXTENSION ext
       then get CATEGORY_BY_EXTENSION ext
       else Val other.

(** [resolveExtension] as a function of the same two strings. *)
Definition extensionFor (m ext : string) : JsValue string :=
  if truthy ext then Val ext
  else if hasProperty MIME_TO_EXTENSION m then get MIME_TO_EXTENSION m
       else Val ".bin".

#[global] Instance FileCategory_eq_dec : EqDecision FileCategory.
Proof. solve_decision. Defined.

(** An entry of [MIME_TO_EXTENSION] agrees with the other two tables when
    its content type and its extension fall in the same category. *)
Definition entryAgrees (entry : string * string) : bool :=
  match classify (fst entry) EmptyString, own CATEGORY_BY_EXTENSION (snd entry) with
  | Val c, Some c' => bool_decide (c = c')
  | _, _ => false
  end.

End FileShape.

(** ** Overlays as assignments *)
Module ContextAlgebra.
Import JsHeap.

(** The properties that [assignMediaFieldsToContext] writes to. *)
Definition writable : list string :=
  [ "MediaPath"; "MediaType"; "Body"; "RawBody"; "CommandBody"; "FileName";
    "FileSize"; "Transcript"; "MediaPaths"; "MediaTypes" ].

(** A function on objects that assigns fixed values to some properties and
    leaves the others alone. *)
Definition Assignment (f : Obj -> Obj) : Prop :=
  exists w : Obj, forall o : Obj, f o = w ∪ o.

End ContextAlgebra.

(** ** Strings without white space at either end *)
Module StringShape.
Import JsString.

Definition Tight (s : string) : Prop :=
  s <> EmptyString /\ trimStart s = s /\ trimEnd s = s.

End StringShape.

(** ** qqbot/src/asr/tencent-flash.ts *)
Module TencentFlash.
Import JsString Media.

(** [lines.join(sep)] *)
Fixpoint join (sep : string) (lines : list string) : string :=
  match lines with
  | [] => EmptyString
  | [x] => x
  | x :: rest => x +:+ sep +:+ join sep rest
  end.

(** The line feed, ["\n"]. *)
Definition LF : string := String (ascii_of_nat 10) EmptyString.

(** [Array.isArray(v) ? v : []] *)
Definition arrayOrEmpty (v : Js) : list Js :=
  match v with
  | JArray l => l
  | _ => []
  end.

(** [v?.k]: [undefined] unless [v] is an object with that property. *)
Definition optionalField (v : Js) (k : string) : Js :=
  match v with
  | JObject f => field f k
  | _ => JUndefined
  end.

(** [typeof v?.text === "string" && v.text.trim()], and the trimmed text
    that is pushed when the test passes. *)
Definition usableText (v : Js) : option string :=
  match optionalField v "text" with
  | JString s => if truthy (trim s) then Some (trim s) else None
  | _ => None
  end.

(** What one item of [flash_result] appends to [lines]: its own text when
    usable, else the usable texts of its [sentence_list]. *)
Definition itemLines (item : Js) : list string :=
  match usableText item with
  | Some t => [t]
  | None => omap usableText (arrayOrEmpty (optionalField item "sentence_list"))
  end.

Definition transcriptLines (payload : list (string * Js)) : list string :=
  List.concat (map itemLines (arrayOrEmpty (field payload "flash_result"))).

Definition extractTranscript (payload : list (string * Js)) : string :=
  trim (join LF (transcriptLines payload)).

End TencentFlash.

(** ** wecom-app/src/config.ts *)
Module WecomConfig.
Import JsString.

Definition DEFAULT_ACCOUNT_ID : string := "default".

(** An optional property of an object: the key may be missing, or present
    with the value [undefined], or present with a value.  The difference
    between the first two shows when objects are spread over one another. *)
Inductive Optional (A : Type) : Type :=
| NoKey
| NoValue
| Value (a : A).
Arguments NoKey {A}.
Arguments NoValue {A}.
Arguments Value {A} a.

(** Reading the property: [undefined] in the first two cases. *)
Definition valueOf {A} (p : Optional A) : option A :=
  match p with
  | Value a => Some a
  | _ => None
  end.

(** The property in [{ ...base, ...over }]. *)
Definition spreadOver {A} (base over : Optional A) : Optional A :=
  match over with
  | NoKey => base
  | _ => over
  end.

(** [s?.trim() || undefined] and the operands of the [||] chains: a string
    counts when it is not blank, and counts trimmed. *)
Definition trimmedOrNone (s : option string) : option string :=
  match s with
  | Some s' => if truthy (trim s') then Some (trim s') else None
  | None => None
  end.

(** [a || b] on optional strings that are never empty. *)
Definition orElse {A} (a b : option A) : option A :=
  match a with
  | Some x => Some x
  | None => b
  end.

(** [String(raw ?? "").trim() || DEFAULT_ACCOUNT_ID] *)
Definition normalizeAccountId (raw : option string) : string :=
  let trimmed := trim (default EmptyString raw) in
  if truthy trimmed then trimmed else DEFAULT_ACCOUNT_ID.

Section Config.

(** JavaScript numbers, with their truthiness ([0] and [NaN] are falsy) and
    the conversion [Number(s)]. *)
Variable number : Type.
Variable truthyNumber : number -> bool.
Variable Number_ : string -> number.

(** [ids.sort((a, b) => a.localeCompare(b))] *)
Variable localeSort : list string -> list string.

(** The settings of one account, as [WecomAppAccountSchema] lists them. *)
Record AccountConfig : Type := mkAccountConfig {
  name : Optional string;
  enabled : Optional bool;
  webhookPath : Optional string;
  token : Optional string;
  encodingAESKey : Optional string;
  receiveId : Optional string;
  corpId : Optional string;
  corpSecret : Optional string;
  agentId : Optional number;
  welcomeText : Optional string;
  dmPolicy : Optional string;
  allowFrom : Optional (list string);
  groupPolicy : Optional string;
  groupAllowFrom : Optional (list string);
  requireMention : Optional bool
}.

Definition emptyAccountConfig : AccountConfig :=
  mkAccountConfig NoKey NoKey NoKey NoKey NoKey NoKey NoKey NoKey NoKey NoKey
    NoKey NoKey NoKey NoKey NoKey.

(** [WecomAppConfig]: the channel-level settings, [defaultAccount] and
    [accounts]. *)
Record WecomAppConfig : Type := mkWecomAppConfig {
  settings : AccountConfig;
  defaultAccount : Optional string;
  accounts : Optional (list (string * AccountConfig))
}.

(** [PluginConfig], reduced to [cfg.channels?.["wecom-app"]]. *)
Definition PluginConfig : Type := option WecomAppConfig.

(** The variables of [process.env] that the module reads. *)
Record Env : Type := mkEnv {
  WECOM_APP_TOKEN : option string;
  WECOM_APP_ENCODING_AES_KEY : option string;
  WECOM_APP_CORP_ID : option string;
  WECOM_APP_CORP_SECRET : option string;
  WECOM_APP_AGENT_ID : option string
}.

Record ResolvedWecomAppAccount : Type := mkResolved {
  r_accountId : string;
  r_name : option string;
  r_enabled : bool;
  r_configured : bool;
  r_token : option string;
  r_encodingAESKey : option string;
  r_receiveId : string;
  r_corpId : option string;
  r_corpSecret : option string;
  r_agentId : option number;
  r_canSendActive : bool;
  r_config : AccountConfig
}.

(** [cfg.channels?.["wecom-app"]?.accounts], when it is an object. *)
Definition accountsOf (cfg : PluginConfig) : option (list (string * AccountConfig)) :=
  cfg ≫= fun c => valueOf (accounts c).

Definition listConfiguredAccountIds (cfg : PluginConfig) : list string :=
  match accountsOf cfg with
  | None => []
  | Some accs => filter (fun k => truthy k = true) (map fst accs)
  end.

Definition listWecomAppAccountIds (cfg : PluginConfig) : list string :=
  let ids := listConfiguredAccountIds cfg in
  if (Z.of_nat (List.length ids) =? 0)%Z then [DEFAULT_ACCOUNT_ID]
  else localeSort ids.

Definition resolveDefaultWecomAppAccountId (cfg : PluginConfig) : string :=
  match trimmedOrNone (cfg ≫= fun c => valueOf (defaultAccount c)) with
  | Some d => d
  | None =>
      let ids := listWecomAppAccountIds cfg in
      if existsb (String.eqb DEFAULT_ACCOUNT_ID) ids then DEFAULT_ACCOUNT_ID
      else default DEFAULT_ACCOUNT_ID (head ids)
  end.

Fixpoint lookupAccount (accs : list (string * AccountConfig)) (accountId : string)
  : option AccountConfig :=
  match accs with
  | [] => None
  | (k, a) :: rest => if String.eqb k accountId then Some a else lookupAccount rest accountId
  end.

(** [accounts[accountId]].  A name that only [Object.prototype] knows
    yields a built-in without enumerable properties, which spreads like an
    empty object: both cases are [None] here. *)
Definition resolveAccountConfig (cfg : PluginConfig) (accountId : string)
  : option AccountConfig :=
  accountsOf cfg ≫= fun accs => lookupAccount accs accountId.

(** [{ ...baseConfig, ...account }], property by property. *)
Definition spreadConfig (base over : AccountConfig) : AccountConfig :=
  mkAccountConfig
    (spreadOver (name base) (name over))
    (spreadOver (enabled base) (enabled over))
    (spreadOver (webhookPath base) (webhookPath over))
    (spreadOver (token base) (token over))
    (spreadOver (encodingAESKey base) (encodingAESKey over))
    (spreadOver (receiveId base) (receiveId over))
    (spreadOver (corpId base) (corpId over))
    (spreadOver (corpSecret base) (corpSecret over))
    (spreadOver (agentId base) (agentId over))
    (spreadOver (welcomeText base) (welcomeText over))
    (spreadOver (dmPolicy base) (dmPolicy over))
    (spreadOver (allowFrom base) (allowFrom over))
    (spreadOver (groupPolicy base) (groupPolicy over))
    (spreadOver (groupAllowFrom base) (groupAllowFrom over))
    (spreadOver (requireMention base) (requireMention over)).

Definition mergeWecomAppAccountConfig (cfg : PluginConfig) (accountId : string)
  : AccountConfig :=
  let baseConfig := match cfg with Some c => settings c | None => emptyAccountConfig end in
  let account := default emptyAccountConfig (resolveAccountConfig cfg accountId) in
  spreadConfig baseConfig account.

(** [x !== false] for an optional boolean. *)
Definition notFalse (b : option bool) : bool :=
  match b with
  | Some false => false
  | _ => true
  end.

Definition resolveWecomAppAccount (env : Env) (cfg : PluginConfig)
    (accountId : option string) : ResolvedWecomAppAccount :=
  let accountId := normalizeAccountId accountId in
  let baseEnabled := notFalse (cfg ≫= fun c => valueOf (enabled (settings c))) in
  let merged := mergeWecomAppAccountConfig cfg accountId in
  let enabled_ := baseEnabled && notFalse (valueOf (enabled merged)) in
  let isDefaultAccount := String.eqb accountId DEFAULT_ACCOUNT_ID in
  let fromEnv (v : option string) : option string :=
    if isDefaultAccount then trimmedOrNone v else None in
  let token_ := orElse (trimmedOrNone (valueOf (token merged)))
                       (fromEnv (WECOM_APP_TOKEN env)) in
  let encodingAESKey_ :=
    orElse (trimmedOrNone (valueOf (encodingAESKey merged)))
           (fromEnv (WECOM_APP_ENCODING_AES_KEY env)) in
  let receiveId_ :=
    match valueOf (receiveId merged) with
    | Some s => trim s
    | None => EmptyString
    end in
  let corpId_ := orElse (trimmedOrNone (valueOf (corpId merged)))
                        (fromEnv (WECOM_APP_CORP_ID env)) in
  let corpSecret_ := orElse (trimmedOrNone (valueOf (corpSecret merged)))
                            (fromEnv (WECOM_APP_CORP_SECRET env)) in
  let agentId_ :=
    match valueOf (agentId merged) with
    | Some n => Some n
    | None =>
        if isDefaultAccount then
          match WECOM_APP_AGENT_ID env with
          | Some s => if truthy s then Some (Number_ s) else None
          | None => None
          end
        else None
    end in
  let configured := bool_decide (is_Some token_) && bool_decide (is_Some encodingAESKey_) in
  let canSendActive :=
    bool_decide (is_Some corpId_) && bool_decide (is_Some corpSecret_) &&
    match agentId_ with Some n => truthyNumber n | None => false end in
  mkResolved accountId (trimmedOrNone (valueOf (name merged))) enabled_
    configured token_ encodingAESKey_ receiveId_ corpId_ corpSecret_ agentId_
    canSendActive merged.

Definition listEnabledWecomAppAccounts (env : Env) (cfg : PluginConfig)
  : list ResolvedWecomAppAccount :=
  filter (fun account => r_enabled account = true)
    (map (fun accountId => resolveWecomAppAccount env cfg (Some accountId))
       (listWecomAppAccountIds cfg)).

End Config.

Arguments mkAccountConfig {number}.
Arguments name {number}.
Arguments enabled {number}.
Arguments webhookPath {number}.
Arguments token {number}.
Arguments encodingAESKey {number}.
Arguments receiveId {number}.
Arguments corpId {number}.
Arguments corpSecret {number}.
Arguments agentId {number}.
Arguments welcomeText {number}.
Arguments dmPolicy {number}.
Arguments allowFrom {number}.
Arguments groupPolicy {number}.
Arguments groupAllowFrom {number}.
Arguments requireMention {number}.
Arguments emptyAccountConfig {number}.
Arguments mkWecomAppConfig {number}.
Arguments settings {number}.
Arguments defaultAccount {number}.
Arguments accounts {number}.
Arguments mkResolved {number}.
Arguments r_accountId {number}.
Arguments r_name {number}.
Arguments r_enabled {number}.
Arguments r_configured {number}.
Arguments r_token {number}.
Arguments r_encodingAESKey {number}.
Arguments r_receiveId {number}.
Arguments r_corpId {number}.
Arguments r_corpSecret {number}.
Arguments r_agentId {number}.
Arguments r_canSendActive {number}.
Arguments r_config {number}.
Arguments accountsOf {number}.
Arguments listConfiguredAccountIds {number}.
Arguments listWecomAppAccountIds {number}.
Arguments resolveDefaultWecomAppAccountId {number}.
Arguments lookupAccount {number}.
Arguments resolveAccountConfig {number}.
Arguments spreadConfig {number}.
Arguments mergeWecomAppAccountConfig {number}.
Arguments resolveWecomAppAccount {number}.
Arguments listEnabledWecomAppAccounts {number}.

End WecomConfig.

(** ** Sample configurations *)
Module WecomSamples.
Import WecomConfig.

(** Integers as numbers: zero is the falsy one. *)
Definition truthyZ (z : Z) : bool := negb (z =? 0)%Z.

(** Stand-ins for [Number] and for the locale-aware sort. *)
Definition zeroOf (s : string) : Z := 0%Z.
Definition keepOrder (l : list string) : list string := l.

Definition noEnv : Env := mkEnv None None None None None.

Definition fullEnv : Env :=
  mkEnv (Some "env-token") (Some "env-key") (Some "env-corp")
    (Some "env-secret") (Some "1000002").

Definition sales : AccountConfig Z :=
  mkAccountConfig NoKey NoKey NoKey (Value " s3cret ") NoKey NoKey NoKey NoKey
    NoKey NoKey NoKey NoKey NoKey NoKey NoKey.

Definition ops : AccountConfig Z :=
  mkAccountConfig NoKey (Value true) NoKey NoValue NoKey NoKey NoKey NoKey
    NoKey NoKey NoKey NoKey NoKey NoKey NoKey.

Definition channelSettings (on : bool) : AccountConfig Z :=
  mkAccountConfig NoKey (Value on) NoKey (Value "channel-token")
    (Value "channel-key") NoKey NoKey NoKey NoKey NoKey NoKey NoKey NoKey
    NoKey NoKey.

Definition channel (on : bool) : WecomAppConfig Z :=
  mkWecomAppConfig (channelSettings on) (Value " ghost ")
    (Value [("sales", sales); ("ops", ops)]).

End WecomSamples.

(** ** wecom-app/src/api.ts: the access-token cache *)
Module WecomApi.
Import JsString WecomConfig.

(** [7200 * 1000 - 5 * 60 * 1000] *)
Definition ACCESS_TOKEN_TTL_MS : Z := 7200 * 1000 - 5 * 60 * 1000.

(** An entry of the cache: [{ token, expiresAt }]. *)
Record AccessTokenCacheEntry : Type := mkEntry {
  entryToken : string;
  expiresAt : Z
}.

(** [accessTokenCache], a [Map] from keys to entries. *)
Abbreviation Cache := (gmap string AccessTokenCacheEntry).

Section Api.

Variable number : Type.

(** A number inside a template string, and the test [n !== 0]. *)
Variable showNumber : number -> string.
Variable isZero : number -> bool.

(** What [gettoken] answers: [{ errcode?, errmsg?, access_token? }]. *)
Record Reply : Type := mkReply {
  errcode : option number;
  errmsg : option string;
  access_token : option string
}.

(** The errors that [getAccessToken] throws.  The error of a failed call
    carries the two values that its message is built from. *)
Inductive TokenError : Type :=
| NotConfigured
| GetTokenFailed (message : string) (code : option number)
| EmptyAccessToken
| Rejected.

Inductive TokenResult : Type :=
| Token (t : string)
| Failed (e : TokenError).

(** A call either finishes at once or waits for the answer to a request
    for the given corpId and corpSecret; the continuation takes the answer
    ([None] when the request or the decoding of its body fails), the time
    at which the call resumes and the cache as it is by then. *)
Inductive Step : Type :=
| Finished (result : TokenResult) (cache : Cache)
| Fetching (corpId corpSecret : string)
    (continue : option Reply -> Z -> Cache -> TokenResult * Cache).

(** [`${account.corpId}:${account.agentId ?? "default"}`] *)
Definition cacheKey (account : ResolvedWecomAppAccount number) : string :=
  default "undefined" (r_corpId account) +:+ ":" +:+
  match r_agentId account with
  | Some n => showNumber n
  | None => "default"
  end.

(** A string property that is set and not empty. *)
Definition truthyProp (s : option string) : option string :=
  match s with
  | Some s' => if truthy s' then Some s' else None
  | None => None
  end.

(** [getAccessToken] from the answer on. *)
Definition afterFetch (key : string) (answer : option Reply) (now : Z)
    (cache : Cache) : TokenResult * Cache :=
  match answer with
  | None => (Failed Rejected, cache)
  | Some data =>
      if match errcode data with Some n => isZero n | None => false end then
        match truthyProp (access_token data) with
        | Some t =>
            (Token t, <[key := mkEntry t (now + ACCESS_TOKEN_TTL_MS)]> cache)
        | None => (Failed EmptyAccessToken, cache)
        end
      else
        (Failed (GetTokenFailed (default "unknown error" (errmsg data))
                   (errcode data)), cache)
  end.

(** [getAccessToken account], called at time [now] with the cache [cache]. *)
Definition getAccessToken (account : ResolvedWecomAppAccount number)
    (cache : Cache) (now : Z) : Step :=
  match truthyProp (r_corpId account), truthyProp (r_corpSecret account) with
  | Some corpId, Some corpSecret =>
      let key := cacheKey account in
      match cache !! key with
      | Some cached =>
          if (now <? expiresAt cached)%Z
          then Finished (Token (entryToken cached)) cache
          else Fetching corpId corpSecret (afterFetch key)
      | None => Fetching corpId corpSecret (afterFetch key)
      end
  | _, _ => Finished (Failed NotConfigured) cache
  end.

Definition clearAccessTokenCache (account : ResolvedWecomAppAccount number)
    (cache : Cache) : Cache :=
  delete (cacheKey account) cache.

Definition clearAllAccessTokenCache (cache : Cache) : Cache := ∅.

End Api.

Arguments mkReply {number}.
Arguments errcode {number}.
Arguments errmsg {number}.
Arguments access_token {number}.
Arguments TokenError : clear implicits.
Arguments NotConfigured {number}.
Arguments GetTokenFailed {number}.
Arguments EmptyAccessToken {number}.
Arguments Rejected {number}.
Arguments Token {number}.
Arguments Failed {number}.
Arguments Finished {number}.
Arguments Fetching {number}.
Arguments cacheKey {number}.
Arguments afterFetch {number}.
Arguments getAccessToken {number}.
Arguments clearAccessTokenCache {number}.

End WecomApi.

(** ** Sample accounts and caches *)
Module WecomApiSamples.
Import WecomConfig WecomApi.

(** Stand-ins for the formatting of a number and for [n !== 0]. *)
Definition showAgent (n : Z) : string :=
  if (n =? 1000002)%Z then "1000002" else "1000003".
Definition isZeroZ (n : Z) : bool := (n =? 0)%Z.

Definition account (corpId corpSecret : string) (agent : Z)
  : ResolvedWecomAppAccount Z :=
  mkResolved "default" None true true (Some "token") (Some "key") ""
    (Some corpId) (Some corpSecret) (Some agent) true emptyAccountConfig.

Definition acme : ResolvedWecomAppAccount Z := account "acme" "old-secret" 1000002.
Definition acmeRotated : ResolvedWecomAppAccount Z := account "acme" "new-secret" 1000002.
Definition acmeOther : ResolvedWecomAppAccount Z := account "acme" "old-secret" 1000003.

Definition goodReply : Reply Z := mkReply (Some 0%Z) (Some "ok") (Some "T-1").

Definition warmCache : Cache :=
  <["acme:1000003" := mkEntry "T-3" 500]> {["acme:1000002" := mkEntry "T-2" 500]}.

End WecomApiSamples.

(** ** wecom-app/src/api.ts: sending a message *)
Module WecomSend.
Import JsString WecomConfig WecomApi.

(** [WecomAppSendTarget]: [{ userId?, chatid? }]. *)
Record WecomAppSendTarget : Type := mkTarget {
  userId : option string;
  chatid : option string
}.

Inductive Recipient : Type :=
| ToChat (chatid : string)   (* payload.chatid *)
| ToUser (userId : string).  (* payload.touser *)

Section Send.

Variable number : Type.
Variable showNumber : number -> string.
Variable isZero : number -> bool.

(** The number [-1]. *)
Variable minusOne : number.

(** [stripMarkdown], whose regular expressions are not modelled. *)
Variable stripMarkdown : string -> string.

(** [SendMessageResult] *)
Record SendMessageResult : Type := mkResult {
  ok : bool;
  s_errcode : option number;
  s_errmsg : option string;
  invaliduser : option string;
  invalidparty : option string;
  invalidtag : option string;
  msgid : option string
}.

(** The decoded answer of [message/send]; the field [ok] of the answer is
    not read. *)
Record SendReply : Type := mkSendReply {
  a_errcode : option number;
  a_errmsg : option string;
  a_invaliduser : option string;
  a_invalidparty : option string;
  a_invalidtag : option string;
  a_msgid : option string
}.

(** The body of the request: [msgtype], [agentid], the content under the
    key named by [msgtype], and the recipient. *)
Record Payload : Type := mkPayload {
  msgtype : string;
  agentid : option number;
  content : string;
  recipient : Recipient
}.

(** A call in progress: resolved with a result, rejected with the error of
    [getAccessToken] or of the request, waiting for the answer of
    [gettoken], or waiting for the answer of [message/send] made with a
    token and a payload. *)
#[warnings="-register-all"] Inductive Sending : Type :=
| Resolved (result : SendMessageResult)
| RejectedBy (e : TokenError number)
| AwaitingToken (corpId corpSecret : string)
    (continue : option (Reply number) -> Z -> Cache -> Sending * Cache)
| AwaitingSend (token : string) (payload : Payload)
    (continue : option SendReply -> Sending).

Definition failure (message : string) : SendMessageResult :=
  mkResult false (Some minusOne) (Some message) None None None None.

(** The end of both functions, from the answer of [message/send] on. *)
Definition reportAnswer (answer : option SendReply) : Sending :=
  match answer with
  | None => RejectedBy Rejected
  | Some data =>
      Resolved
        (mkResult
           (match a_errcode data with Some n => isZero n | None => false end)
           (a_errcode data) (a_errmsg data) (a_invaliduser data)
           (a_invalidparty data) (a_invalidtag data) (a_msgid data))
  end.

(** Both functions between the token and the request. *)
Definition address (token : string) (msgtype_ content_ : string)
    (account : ResolvedWecomAppAccount number) (target : WecomAppSendTarget)
  : Sending :=
  match truthyProp (chatid target) with
  | Some c =>
      AwaitingSend token
        (mkPayload msgtype_ (r_agentId account) content_ (ToChat c)) reportAnswer
  | None =>
      match truthyProp (userId target) with
      | Some u =>
          AwaitingSend token
            (mkPayload msgtype_ (r_agentId account) content_ (ToUser u)) reportAnswer
      | None => Resolved (failure "No target specified (need userId or chatid)")
      end
  end.

(** [const token = await getAccessToken(account)], then the rest. *)
Definition withToken (account : ResolvedWecomAppAccount number) (cache : Cache)
    (now : Z) (rest : string -> Sending) : Sending :=
  match getAccessToken showNumber isZero account cache now with
  | Finished (Token t) _ => rest t
  | Finished (Failed e) _ => RejectedBy e
  | Fetching corpId corpSecret continue =>
      AwaitingToken corpId corpSecret (fun answer answered cacheThen =>
        match continue answer answered cacheThen with
        | (Token t, cacheAfter) => (rest t, cacheAfter)
        | (Failed e, cacheAfter) => (RejectedBy e, cacheAfter)
        end)
  end.

Definition sendWecomAppMessage (account : ResolvedWecomAppAccount number)
    (target : WecomAppSendTarget) (message : string)
    (cache : Cache) (now : Z) : Sending :=
  if negb (r_canSendActive account) then
    Resolved (failure
      "Account not configured for active sending (missing corpId, corpSecret, or agentId)")
  else
    withToken account cache now (fun token =>
      let text := stripMarkdown message in
      address token "text" text account target).

Definition sendWecomAppMarkdownMessage (account : ResolvedWecomAppAccount number)
    (target : WecomAppSendTarget) (markdownContent : string)
    (cache : Cache) (now : Z) : Sending :=
  if negb (r_canSendActive account) then
    Resolved (failure
      "Account not configured for active sending (missing corpId, corpSecret, or agentId)")
  else
    withToken account cache now (fun token =>
      address token "markdown" markdownContent account target).

(** The requests to [message/send] that a call can come to make, whatever
    answers it gets. *)
Inductive Issues : Sending -> string -> Payload -> Prop :=
| issues_now token payload continue :
    Issues (AwaitingSend token payload continue) token payload
| issues_after_token corpId corpSecret continue answer answered cacheThen
    token payload :
    Issues (fst (continue answer answered cacheThen)) token payload ->
    Issues (AwaitingToken corpId corpSecret continue) token payload.

(** ** Notions used to state what a call sends *)

(** Where a token comes from: a cache entry that has not expired, or an
    answer of [gettoken], which is never empty. *)
Definition Obtained (account : ResolvedWecomAppAccount number) (cache : Cache)
    (now : Z) (token : string) : Prop :=
  (exists cached, cache !! cacheKey showNumber account = Some cached /\
                  (now < expiresAt cached)%Z /\ token = entryToken cached) \/
  token <> EmptyString.

(** Whom a payload is for: the chat when [chatid] is set, else the user. *)
Definition Addressed (target : WecomAppSendTarget) (to : Recipient) : Prop :=
  (exists c, truthyProp (chatid target) = Some c /\ to = ToChat c) \/
  (truthyProp (chatid target) = None /\
   exists u, truthyProp (userId target) = Some u /\ to = ToUser u).

End Send.

Arguments mkResult {number}.
Arguments ok {number}.
Arguments s_errcode {number}.
Arguments s_errmsg {number}.
Arguments mkSendReply {number}.
Arguments a_errcode {number}.
Arguments mkPayload {number}.
Arguments msgtype {number}.
Arguments agentid {number}.
Arguments content {number}.
Arguments recipient {number}.
Arguments Resolved {number}.
Arguments RejectedBy {number}.
Arguments AwaitingToken {number}.
Arguments AwaitingSend {number}.
Arguments failure {number}.
Arguments reportAnswer {number}.
Arguments address {number}.
Arguments withToken {number}.
Arguments sendWecomAppMessage {number}.
Arguments sendWecomAppMarkdownMessage {number}.
Arguments Issues {number}.
Arguments Obtained {number}.

End WecomSend.

(** ** Sample targets *)
Module WecomSendSamples.
Import WecomConfig WecomApi WecomSend WecomApiSamples.

(** A stand-in for [stripMarkdown]. *)
Definition keepText (s : string) : string := s.

Definition bothTargets : WecomAppSendTarget := mkTarget (Some "zhang") (Some "chat-7").
Definition noTarget : WecomAppSendTarget := mkTarget None (Some "").

Definition chatPayload (kind : string) : Payload Z :=
  mkPayload kind (Some 1000002%Z) "**hi**" (ToChat "chat-7").

End WecomSendSamples.

(** ** qqbot/src/asr/tencent-flash.ts: the signed query *)
Module SignedQuery.
Import JsString.

(** The characters that [encodeURIComponent] leaves as they are:
    letters, digits and [- _ . ! ~ * ' ( )]. *)
Definition unreserved (c : ascii) : bool :=
  let n := N_of_ascii c in
  ((65 <=? n) && (n <=? 90) || (97 <=? n) && (n <=? 122) ||
   (48 <=? n) && (n <=? 57) ||
   (n =? 45) || (n =? 95) || (n =? 46) || (n =? 33) || (n =? 126) ||
   (n =? 42) || (n =? 39) || (n =? 40) || (n =? 41))%N.

(** One upper-case hexadecimal digit. *)
Definition hexDigit (n : N) : ascii :=
  if (n <? 10)%N then ascii_of_N (48 + n) else ascii_of_N (55 + n).

(** [%XX] for one byte. *)
Definition percentByte (b : N) : string :=
  String "%"%char (String (hexDigit (b / 16)) (String (hexDigit (b mod 16)) EmptyString)).

(** The UTF-8 bytes of a code unit below 256: one byte below 128, two
    bytes from there on. *)
Definition utf8 (c : ascii) : list N :=
  let n := N_of_ascii c in
  if (n <? 128)%N then [n] else [192 + n / 64; 128 + n mod 64]%N.

Fixpoint encodeURIComponent (s : string) : string :=
  match s with
  | EmptyString => EmptyString
  | String c r =>
      (if unreserved c then String c EmptyString
       else foldr (fun b acc => percentByte b +:+ acc) EmptyString (utf8 c))
      +:+ encodeURIComponent r
  end.

(** [.replace(/%20/g, "+")] *)
Fixpoint replacePercent20 (s : string) : string :=
  match s with
  | EmptyString => EmptyString
  | String c r =>
      if Ascii.eqb c "%"%char then
        match r with
        | String d (String e r') =>
            if Ascii.eqb d "2"%char && Ascii.eqb e "0"%char
            then String "+"%char (replacePercent20 r')
            else String c (replacePercent20 r)
        | _ => String c (replacePercent20 r)
        end
      else String c (replacePercent20 r)
  end.

(** [[!'()*]] *)
Definition isMark (c : ascii) : bool :=
  let n := N_of_ascii c in
  ((n =? 33) || (n =? 39) || (n =? 40) || (n =? 41) || (n =? 42))%N.

(** [n.toString(16).toUpperCase()] for a char code: its hexadecimal digits
    without padding. *)
Definition upperHex (n : N) : string :=
  if (n <? 16)%N then String (hexDigit n) EmptyString
  else String (hexDigit (n / 16)) (String (hexDigit (n mod 16)) EmptyString).

(** [.replace(/[!'()*]/g, (char) => `%${...}`)] *)
Fixpoint replaceMarks (s : string) : string :=
  match s with
  | EmptyString => EmptyString
  | String c r =>
      if isMark c then String "%"%char (upperHex (N_of_ascii c)) +:+ replaceMarks r
      else String c (replaceMarks r)
  end.

Definition encodeQueryValue (value : string) : string :=
  replaceMarks (replacePercent20 (encodeURIComponent value)).

(** The characters that an encoded value is made of: letters, digits,
    [- _ . ~], the [%] of an escape and the [+] of a space. *)
Definition querySafe (c : ascii) : bool :=
  let n := N_of_ascii c in
  ((65 <=? n) && (n <=? 90) || (97 <=? n) && (n <=? 122) ||
   (48 <=? n) && (n <=? 57) ||
   (n =? 45) || (n =? 95) || (n =? 46) || (n =? 126) || (n =? 37) ||
   (n =? 43))%N.

Fixpoint allChars (p : ascii -> bool) (s : string) : bool :=
  match s with
  | EmptyString => true
  | String c r => p c && allChars p r
  end.

(** The value of a hexadecimal digit. *)
Definition hexValue (c : ascii) : N :=
  let n := N_of_ascii c in
  if (n <? 58)%N then n - 48 else n - 55.

(** Reads the code unit at the head of an encoded value: a [+], an escape
    of one or two bytes, or a plain character. *)
Definition decodeHead (s : string) : option (ascii * string) :=
  match s with
  | EmptyString => None
  | String c r =>
      if Ascii.eqb c "+"%char then Some (" "%char, r)
      else if Ascii.eqb c "%"%char then
        match r with
        | String h1 (String h2 r') =>
            let b := (hexValue h1 * 16 + hexValue h2)%N in
            if (b <? 128)%N then Some (ascii_of_N b, r')
            else
              match r' with
              | String p (String h3 (String h4 r'')) =>
                  let b' := (hexValue h3 * 16 + hexValue h4)%N in
                  Some (ascii_of_N ((b - 192) * 64 + (b' - 128)), r'')
              | _ => None
              end
        | _ => None
        end
      else Some (c, r)
  end.

End SignedQuery.

(** * Properties of the context assembly *)
Module InboundContextProofs.
Import JsString JsHeap MediaTypes InboundContext ContextLogic.

(** ** Computations that write to one object *)


Lemma rewrites_ret l : rewrites l (ret tt) id.
Proof. intros h o H. unfold ret. by rewrite insert_id. Qed.

Lemma rewrites_assign l k v : rewrites l (assign l k v) (insert k v).
Proof. intros h o H. unfold assign. by rewrite H. Qed.

Lemma rewrites_bind l m1 m2 f1 f2 :
  rewrites l m1 f1 -> rewrites l m2 f2 -> rewrites l (m1 ;; m2) (f2 ∘ f1).
Proof.
  intros H1 H2 h o H. unfold mbind, M_bind, bind.
  rewrite (H1 h o H), (H2 (<[l := f1 o]> h) (f1 o)) by apply lookup_insert_eq.
  by rewrite insert_insert_eq.
Qed.

Lemma rewrites_when l (c : bool) m f :
  rewrites l m f -> rewrites l (when c m) (if c then f else id).
Proof. destruct c; [done | intros _; apply rewrites_ret]. Qed.

Lemma rewrites_whenSome {A} l (x : option A) k f :
  (forall a, rewrites l (k a) (f a)) ->
  rewrites l (whenSome x k) (match x with Some a => f a | None => id end).
Proof. destruct x; [intros H; apply H | intros _; apply rewrites_ret]. Qed.

Lemma rewrites_then {A} l m f (k : M A) h o :
  rewrites l m f -> h !! l = Some o -> (m ;; k) h = k (<[l := f o]> h).
Proof. intros Hm H. unfold mbind, M_bind, bind. by rewrite (Hm h o H). Qed.

Lemma rewrites_ext l m f g :
  rewrites l m f -> (forall o, f o = g o) -> rewrites l m g.
Proof. intros Hm Hfg h o H. rewrite <- Hfg. by apply Hm. Qed.

(** Follows the shape of a block of assignments and collects what it
    writes. *)
Ltac rewrites_block :=
  cbv beta;
  lazymatch goal with
  | |- rewrites _ (assign _ _ _) _ => eapply rewrites_assign
  | |- rewrites _ (ret _) _ => eapply rewrites_ret
  | |- rewrites _ (when _ _) _ => eapply rewrites_when; rewrites_block
  | |- rewrites _ (whenSome _ _) _ =>
      eapply rewrites_whenSome; intros ?; rewrites_block
  | |- rewrites _ (mbind _ _) _ =>
      eapply rewrites_bind; [rewrites_block | rewrites_block]
  end.

(** The call allocates one object, fills it with [overlay] of the base's
    fields and returns its reference. *)
Lemma assignMediaFieldsToContext_run inboundCtx dm efi imgs mb (h : Heap) (b : Obj) :
  h !! inboundCtx = Some b ->
  assignMediaFieldsToContext inboundCtx dm efi imgs mb h =
  Some (fresh (dom h), <[fresh (dom h) := overlay dm efi imgs mb b]> h).
Proof.
  intros Hb. unfold assignMediaFieldsToContext.
  unfold mbind at 1, M_bind at 1, bind at 1. unfold spread. rewrite Hb.
  cbv zeta. set (ctx := fresh (dom h)).
  erewrite (rewrites_then ctx _ (withMedia dm efi mb));
    [| | apply lookup_insert_eq].
  2:{ eapply rewrites_ext; [rewrites_block|].
      intros o. unfold withMedia, withTranscript, withFile, withBody.
      destruct dm as [d|]; [|done]. destruct efi as [info|]; simpl.
      - destruct (bool_decide (ExtractedFileInfo.msgType info = file)),
          (bool_decide (ExtractedFileInfo.msgType info = audio)),
          (truthyString mb), (truthyString (ExtractedFileInfo.fileName info)),
          (ExtractedFileInfo.fileSize info),
          (truthyString (ExtractedFileInfo.recognition info)); reflexivity.
      - destruct (truthyString mb); reflexivity. }
  erewrite (rewrites_then ctx _ (withImages imgs mb));
    [| | apply lookup_insert_eq].
  2:{ eapply rewrites_ext; [rewrites_block|].
      intros o. unfold withImages, withBody.
      destruct (0 <? Z.of_nat (List.length imgs))%Z, (truthyString mb);
        reflexivity. }
  by rewrite !insert_insert_eq.
Qed.

Lemma returns_mono m h (P Q : loc -> Heap -> Obj -> Prop) :
  (forall l h' o, P l h' o -> Q l h' o) -> returns m h P -> returns m h Q.
Proof. intros HPQ (l & h' & o & ? & ? & ?). exists l, h', o. eauto. Qed.

Lemma returns_functional m h (P Q : loc -> Heap -> Obj -> Prop) :
  returns m h P -> returns m h Q ->
  exists l h' o, P l h' o /\ Q l h' o.
Proof.
  intros (l & h' & o & Hm & Ho & HP) (l2 & h2 & o2 & Hm2 & Ho2 & HQ).
  rewrite Hm in Hm2. injection Hm2 as <- <-. rewrite Ho in Ho2.
  injection Ho2 as <-. eauto 6.
Qed.

Lemma returns_overlay inboundCtx dm efi imgs mb (h : Heap) (b : Obj)
    (P : loc -> Heap -> Obj -> Prop) :
  h !! inboundCtx = Some b ->
  P (fresh (dom h)) (<[fresh (dom h) := overlay dm efi imgs mb b]> h)
    (overlay dm efi imgs mb b) ->
  returns (assignMediaFieldsToContext inboundCtx dm efi imgs mb) h P.
Proof.
  intros Hb HP. eexists _, _, _. split; [|split; [|exact HP]].
  - by apply assignMediaFieldsToContext_run.
  - apply lookup_insert_eq.
Qed.

(** *** Which fields each step writes *)

Lemma withBody_written mb s (o : Obj) :
  truthyString mb = Some s ->
  withBody mb o !! "Body" = Some (VString s) /\
  withBody mb o !! "RawBody" = Some (VString s) /\
  withBody mb o !! "CommandBody" = Some (VString s).
Proof. intros H. unfold withBody. rewrite H. simpl. by simplify_map_eq. Qed.

Lemma withBody_skipped mb (o : Obj) :
  truthyString mb = None -> withBody mb o = o.
Proof. intros H. unfold withBody. by rewrite H. Qed.

Lemma withBody_other mb (o : Obj) k :
  k <> "Body" -> k <> "RawBody" -> k <> "CommandBody" ->
  withBody mb o !! k = o !! k.
Proof.
  intros. unfold withBody. destruct (truthyString mb); simpl; by simplify_map_eq.
Qed.

Lemma withFile_other efi (o : Obj) k :
  k <> "FileName" -> k <> "FileSize" -> withFile efi o !! k = o !! k.
Proof.
  intros. unfold withFile. destruct efi as [info|]; [|done].
  destruct (bool_decide _); [|done].
  destruct (ExtractedFileInfo.fileSize info),
    (truthyString (ExtractedFileInfo.fileName info)); simpl; by simplify_map_eq.
Qed.

Lemma withTranscript_other efi (o : Obj) k :
  k <> "Transcript" -> withTranscript efi o !! k = o !! k.
Proof.
  intros. unfold withTranscript. destruct efi as [info|]; [|done].
  destruct (bool_decide _); [|done].
  destruct (truthyString (ExtractedFileInfo.recognition info)); simpl;
    by simplify_map_eq.
Qed.

Lemma withMedia_other dm efi mb (o : Obj) k :
  k <> "MediaPath" -> k <> "MediaType" ->
  k <> "Body" -> k <> "RawBody" -> k <> "CommandBody" ->
  k <> "FileName" -> k <> "FileSize" -> k <> "Transcript" ->
  withMedia dm efi mb o !! k = o !! k.
Proof.
  intros. unfold withMedia. destruct dm as [d|]; [|done]. simpl.
  rewrite withTranscript_other, withFile_other, withBody_other by done.
  by simplify_map_eq.
Qed.

Lemma withImages_other imgs mb (o : Obj) k :
  k <> "MediaPaths" -> k <> "MediaTypes" ->
  k <> "Body" -> k <> "RawBody" -> k <> "CommandBody" ->
  withImages imgs mb o !! k = o !! k.
Proof.
  intros. unfold withImages. destruct (_ <? _)%Z; [|done]. simpl.
  rewrite withBody_other by done. by simplify_map_eq.
Qed.

Lemma truthyString_Some mb s :
  truthyString mb = Some s <-> mb = Some s /\ s <> EmptyString.
Proof.
  destruct mb as [[|c r]|]; simpl; split; try done.
  - by intros [[= <-] ?].
  - by intros [= <-].
  - by intros [? _].
  - by intros [? _].
Qed.

Lemma truthyString_None mb :
  truthyString mb = None <-> mb = None \/ mb = Some EmptyString.
Proof.
  destruct mb as [[|c r]|]; simpl; split; try done; eauto.
  by intros [?|?].
Qed.

Lemma nonempty_length {A} (l : list A) :
  (0 <? Z.of_nat (List.length l))%Z = bool_decide (l <> []).
Proof. by destruct l. Qed.

Lemma withMedia_Some d efi mb (o : Obj) :
  withMedia (Some d) efi mb o =
  withTranscript efi
    (withFile efi
       (withBody mb
          (<["MediaType" := VString (DownloadedFile.contentType d)]>
             (<["MediaPath" := VString (DownloadedFile.path d)]> o)))).
Proof. reflexivity. Qed.

Lemma withImages_cons x imgs mb (o : Obj) :
  withImages (x :: imgs) mb o =
  withBody mb
    (<["MediaTypes" := VStrings (map DownloadedFile.contentType (x :: imgs))]>
       (<["MediaPaths" := VStrings (map DownloadedFile.path (x :: imgs))]> o)).
Proof. reflexivity. Qed.

Lemma withFile_file info (o : Obj) :
  ExtractedFileInfo.msgType info = file ->
  withFile (Some info) o =
  match ExtractedFileInfo.fileSize info with
  | Some z => insert "FileSize" (VNumber z)
  | None => id
  end
    (match truthyString (ExtractedFileInfo.fileName info) with
     | Some n => insert "FileName" (VString n)
     | None => id
     end o).
Proof. intros H. unfold withFile. by rewrite H. Qed.

Lemma withTranscript_audio info (o : Obj) :
  ExtractedFileInfo.msgType info = audio ->
  withTranscript (Some info) o =
  match truthyString (ExtractedFileInfo.recognition info) with
  | Some t => insert "Transcript" (VString t)
  | None => id
  end o.
Proof. intros H. unfold withTranscript. by rewrite H. Qed.

Lemma lookup_map {A B} (f : A -> B) (l : list A) i a :
  l !! i = Some a -> map f l !! i = Some (f a).
Proof.
  revert i; induction l as [|x l IH]; intros [|i] H; simpl in *; try done.
  - by injection H as ->.
  - by apply IH.
Qed.

(** ** What [assignMediaFieldsToContext] returns *)

(** C1. For every base context and every combination of the other
    arguments, the returned record has neither [MediaUrl] nor [MediaUrls]
    set.  A base context is an [InboundContext], which has neither field:
    the test reads them from the result through a cast to
    [Record<string, unknown>], and every call builds its base with
    [buildInboundContext].  No branch writes either field - both are in
    the result exactly as in the base - so both are undefined there. *)
Theorem media_url_fields_kept inboundCtx dm efi imgs mb (h : Heap) (b : Obj) :
  h !! inboundCtx = Some b ->
  returns (assignMediaFieldsToContext inboundCtx dm efi imgs mb) h
    (fun _ _ o =>
       o !! "MediaUrl" = b !! "MediaUrl" /\
       o !! "MediaUrls" = b !! "MediaUrls" /\
       (read b "MediaUrl" = VUndefined -> read o "MediaUrl" = VUndefined) /\
       (read b "MediaUrls" = VUndefined -> read o "MediaUrls" = VUndefined)).
Proof.
  intros Hb. eapply returns_overlay; [done|]. unfold overlay, read.
  rewrite !withImages_other, !withMedia_other by done. done.
Qed.

Lemma media_url_fields_kept_witness :
  returns
    (assignMediaFieldsToContext 1 (Some Samples.photo) (Some Samples.report)
       [Samples.scan] (Some "[file]"%string))
    {[1%positive := Samples.baseCtx]}
    (fun _ _ o => read o "MediaUrl" = VUndefined /\ read o "MediaUrls" = VUndefined).
Proof.
  eapply returns_mono;
    [| exact (media_url_fields_kept 1 (Some Samples.photo) (Some Samples.report)
                [Samples.scan] (Some "[file]"%string)
                {[1%positive := Samples.baseCtx]} Samples.baseCtx
                (lookup_singleton_eq _ _))].
  intros _ _ o (_ & _ & H1 & H2). split; [apply H1 | apply H2]; reflexivity.
Defined.

(** C2. The call leaves the object passed as base as it was - no field
    added, removed or changed - and returns a reference to a new object:
    one that did not exist before and differs from the base's; no other
    object of the heap changes either. *)
Theorem base_unchanged inboundCtx dm efi imgs mb (h : Heap) (b : Obj) :
  h !! inboundCtx = Some b ->
  returns (assignMediaFieldsToContext inboundCtx dm efi imgs mb) h
    (fun ctx h' _ =>
       ctx <> inboundCtx /\
       h !! ctx = None /\
       h' !! inboundCtx = Some b /\
       (forall l, l <> ctx -> h' !! l = h !! l)).
Proof.
  intros Hb. eapply returns_overlay; [done|].
  assert (Hfresh : h !! fresh (dom h) = None).
  { apply not_elem_of_dom, is_fresh. }
  assert (Hne : fresh (dom h) <> inboundCtx).
  { intros E. rewrite E, Hb in Hfresh. discriminate Hfresh. }
  repeat split; [done | done | | ].
  - by rewrite lookup_insert_ne.
  - intros l Hl. by rewrite lookup_insert_ne.
Qed.

Lemma base_unchanged_witness :
  returns
    (assignMediaFieldsToContext 1 (Some Samples.photo) (Some Samples.report)
       [Samples.scan] (Some "[file]"%string))
    {[1%positive := Samples.baseCtx]}
    (fun ctx h' _ => ctx <> 1%positive /\ h' !! 1%positive = Some Samples.baseCtx).
Proof.
  eapply returns_mono;
    [| exact (base_unchanged 1 (Some Samples.photo) (Some Samples.report)
                [Samples.scan] (Some "[file]"%string)
                {[1%positive := Samples.baseCtx]} Samples.baseCtx
                (lookup_singleton_eq _ _))].
  intros ctx h' _ (H1 & _ & H2 & _). by split.
Defined.

(** C3 (amended). The file and audio overlays sit inside the
    single-media branch.  When [downloadedMedia] is present: for a
    descriptor of type [file], [FileName] is set to its [fileName] exactly
    when that is a non-empty string and [FileSize] to its [fileSize]
    exactly when that is defined, each on its own; for a descriptor of
    type [audio], [Transcript] is set to a non-empty [recognition] and
    left as in the base otherwise.  When [downloadedMedia] is absent the
    three fields are as in the base, whatever the descriptor. *)
Theorem file_and_audio_fields inboundCtx dm efi imgs mb (h : Heap) (b : Obj) :
  h !! inboundCtx = Some b ->
  returns (assignMediaFieldsToContext inboundCtx dm efi imgs mb) h
    (fun _ _ o =>
       (dm = None ->
          o !! "FileName" = b !! "FileName" /\
          o !! "FileSize" = b !! "FileSize" /\
          o !! "Transcript" = b !! "Transcript") /\
       (forall info,
          is_Some dm -> efi = Some info ->
          ExtractedFileInfo.msgType info = file ->
          (forall n, ExtractedFileInfo.fileName info = Some n -> n <> EmptyString ->
                     o !! "FileName" = Some (VString n)) /\
          (ExtractedFileInfo.fileName info = None \/
           ExtractedFileInfo.fileName info = Some EmptyString ->
             o !! "FileName" = b !! "FileName") /\
          (forall z, ExtractedFileInfo.fileSize info = Some z ->
                     o !! "FileSize" = Some (VNumber z)) /\
          (ExtractedFileInfo.fileSize info = None ->
             o !! "FileSize" = b !! "FileSize")) /\
       (forall info,
          is_Some dm -> efi = Some info ->
          ExtractedFileInfo.msgType info = audio ->
          (forall t, ExtractedFileInfo.recognition info = Some t -> t <> EmptyString ->
                     o !! "Transcript" = Some (VString t)) /\
          (ExtractedFileInfo.recognition info = None \/
           ExtractedFileInfo.recognition info = Some EmptyString ->
             o !! "Transcript" = b !! "Transcript"))).
Proof.
  intros Hb. eapply returns_overlay; [done|]. unfold overlay.
  rewrite !withImages_other by done. split; [|split].
  - intros ->. by repeat split.
  - intros info [d ->] -> Hfile. rewrite !withMedia_Some.
    rewrite !withTranscript_other by done. rewrite !withFile_file by done.
    repeat split.
    + intros n Hn Hne.
      assert (truthyString (ExtractedFileInfo.fileName info) = Some n) as ->
        by by apply truthyString_Some.
      destruct (ExtractedFileInfo.fileSize info); by simplify_map_eq.
    + intros Hn%truthyString_None. rewrite Hn.
      destruct (ExtractedFileInfo.fileSize info); unfold id;
        rewrite ?lookup_insert_ne, withBody_other by done; by simplify_map_eq.
    + intros z ->. by simplify_map_eq.
    + intros ->.
      destruct (truthyString (ExtractedFileInfo.fileName info)); unfold id;
        rewrite ?lookup_insert_ne, withBody_other by done; by simplify_map_eq.
  - intros info [d ->] -> Haudio. rewrite !withMedia_Some.
    rewrite !withTranscript_audio by done. split.
    + intros t Ht Hne.
      assert (truthyString (ExtractedFileInfo.recognition info) = Some t) as ->
        by by apply truthyString_Some.
      by simplify_map_eq.
    + intros Ht%truthyString_None. rewrite Ht. unfold id.
      rewrite withFile_other, withBody_other by done. by simplify_map_eq.
Qed.

Lemma file_and_audio_fields_witness :
  returns
    (assignMediaFieldsToContext 1 (Some Samples.photo) (Some Samples.report)
       [] (Some "[file]"%string))
    {[1%positive := Samples.baseCtx]}
    (fun _ _ o =>
       o !! "FileName" = Some (VString "a.pdf") /\
       o !! "FileSize" = Some (VNumber 10)).
Proof.
  eapply returns_mono;
    [| exact (file_and_audio_fields 1 (Some Samples.photo) (Some Samples.report)
                [] (Some "[file]"%string)
                {[1%positive := Samples.baseCtx]} Samples.baseCtx
                (lookup_singleton_eq _ _))].
  intros _ _ o (_ & H & _).
  destruct (H Samples.report (ex_intro _ _ eq_refl) eq_refl eq_refl)
    as (Hn & _ & Hz & _).
  split; [apply Hn; [reflexivity | discriminate] | apply Hz; reflexivity].
Defined.

(** C3 as stated makes the file and audio overlays depend on the
    descriptor alone.  Without [downloadedMedia] a file descriptor with a name and a
    size sets neither [FileName] nor [FileSize], and an audio descriptor
    with a transcript sets no [Transcript]. *)
Lemma descriptor_alone_counterexample :
  returns (assignMediaFieldsToContext 1 None (Some Samples.report) [] None)
    {[1%positive := Samples.baseCtx]}
    (fun _ _ o => read o "FileName" = VUndefined /\ read o "FileSize" = VUndefined) /\
  returns (assignMediaFieldsToContext 1 None (Some Samples.voice) [] None)
    {[1%positive := Samples.baseCtx]}
    (fun _ _ o => read o "Transcript" = VUndefined) /\
  ~ (forall inboundCtx dm efi imgs mb (h : Heap) (b : Obj) info n,
       h !! inboundCtx = Some b ->
       efi = Some info ->
       ExtractedFileInfo.msgType info = file ->
       ExtractedFileInfo.fileName info = Some n ->
       returns (assignMediaFieldsToContext inboundCtx dm efi imgs mb) h
         (fun _ _ o => read o "FileName" = VString n)).
Proof.
  assert (Hrun :
    returns (assignMediaFieldsToContext 1 None (Some Samples.report) [] None)
      {[1%positive := Samples.baseCtx]}
      (fun _ _ o => read o "FileName" = VUndefined /\ read o "FileSize" = VUndefined)).
  { eapply returns_overlay; [apply lookup_singleton_eq|]. by split. }
  split; [exact Hrun|]. split.
  { eapply returns_overlay; [apply lookup_singleton_eq|]. reflexivity. }
  intros H.
  specialize (H 1%positive None (Some Samples.report) [] None
                {[1%positive := Samples.baseCtx]} Samples.baseCtx
                Samples.report "a.pdf"%string
                (lookup_singleton_eq _ _) eq_refl eq_refl eq_refl).
  destruct (returns_functional _ _ _ _ Hrun H) as (_ & _ & o & [Hu _] & Ho).
  rewrite Ho in Hu. discriminate Hu.
Qed.

(** C4. When [mediaBody] is a non-empty string and a media branch fires
    ([downloadedMedia] present or [downloadedRichTextImages] non-empty),
    [Body], [RawBody] and [CommandBody] all equal [mediaBody]; in every
    other case all three are as in the base.  No input overwrites only
    some of them. *)
Theorem body_fields_lock_step inboundCtx dm efi imgs mb (h : Heap) (b : Obj) :
  h !! inboundCtx = Some b ->
  returns (assignMediaFieldsToContext inboundCtx dm efi imgs mb) h
    (fun _ _ o =>
       (forall s, mb = Some s -> s <> EmptyString -> is_Some dm \/ imgs <> [] ->
          o !! "Body" = Some (VString s) /\
          o !! "RawBody" = Some (VString s) /\
          o !! "CommandBody" = Some (VString s)) /\
       (mb = None \/ mb = Some EmptyString \/ (dm = None /\ imgs = []) ->
          o !! "Body" = b !! "Body" /\
          o !! "RawBody" = b !! "RawBody" /\
          o !! "CommandBody" = b !! "CommandBody")).
Proof.
  intros Hb. eapply returns_overlay; [done|]. unfold overlay. split.
  - intros s Hs Hne Hfires.
    assert (Ht : truthyString mb = Some s) by by apply truthyString_Some.
    destruct imgs as [|i imgs].
    + destruct Hfires as [[d ->]|?]; [|done].
      change (withImages [] mb) with (@id Obj). unfold id.
      rewrite !withMedia_Some.
      rewrite !withTranscript_other, !withFile_other by done.
      by apply withBody_written.
    + rewrite !withImages_cons. by apply withBody_written.
  - intros Hskip.
    assert (Hcases : truthyString mb = None \/ (dm = None /\ imgs = [])).
    { destruct Hskip as [?|[?|?]]; [left|left|right]; try done;
        apply truthyString_None; eauto. }
    destruct Hcases as [Ht|[-> ->]]; [|by repeat split].
    destruct imgs as [|i imgs], dm as [d|];
      rewrite ?withImages_cons; change (withImages [] mb) with (@id Obj);
      unfold id; rewrite ?withMedia_Some, ?(withBody_skipped mb) by done;
      change (withMedia None efi mb) with (@id Obj); unfold id;
      rewrite ?lookup_insert_ne by done;
      rewrite ?withTranscript_other, ?withFile_other by done;
      rewrite ?(withBody_skipped mb) by done;
      rewrite ?lookup_insert_ne by done; by repeat split.
Qed.

Lemma body_fields_lock_step_witness :
  returns
    (assignMediaFieldsToContext 1 None None [Samples.scan] (Some "[picture]"%string))
    {[1%positive := Samples.baseCtx]}
    (fun _ _ o =>
       o !! "Body" = Some (VString "[picture]") /\
       o !! "RawBody" = Some (VString "[picture]") /\
       o !! "CommandBody" = Some (VString "[picture]")).
Proof.
  eapply returns_mono;
    [| exact (body_fields_lock_step 1 None None [Samples.scan]
                (Some "[picture]"%string)
                {[1%positive := Samples.baseCtx]} Samples.baseCtx
                (lookup_singleton_eq _ _))].
  intros _ _ o [H _].
  apply (H "[picture]"%string); [reflexivity | discriminate | right; discriminate].
Defined.

(** C5. When [downloadedMedia] is present the result has [MediaPath]
    equal to its path and [MediaType] equal to its content type; when it
    is absent both fields are as in the base. *)
Theorem single_media_fields inboundCtx dm efi imgs mb (h : Heap) (b : Obj) :
  h !! inboundCtx = Some b ->
  returns (assignMediaFieldsToContext inboundCtx dm efi imgs mb) h
    (fun _ _ o =>
       (forall d, dm = Some d ->
          o !! "MediaPath" = Some (VString (DownloadedFile.path d)) /\
          o !! "MediaType" = Some (VString (DownloadedFile.contentType d))) /\
       (dm = None ->
          o !! "MediaPath" = b !! "MediaPath" /\
          o !! "MediaType" = b !! "MediaType")).
Proof.
  intros Hb. eapply returns_overlay; [done|]. unfold overlay.
  rewrite !withImages_other by done. split.
  - intros d ->. rewrite !withMedia_Some.
    rewrite !withTranscript_other, !withFile_other, !withBody_other by done.
    by simplify_map_eq.
  - intros ->. by split.
Qed.

Lemma single_media_fields_witness :
  returns
    (assignMediaFieldsToContext 1 (Some Samples.photo) None [] None)
    {[1%positive := Samples.baseCtx]}
    (fun _ _ o =>
       o !! "MediaPath" = Some (VString "/tmp/dingtalk-file-a.png") /\
       o !! "MediaType" = Some (VString "image/png")).
Proof.
  eapply returns_mono;
    [| exact (single_media_fields 1 (Some Samples.photo) None [] None
                {[1%positive := Samples.baseCtx]} Samples.baseCtx
                (lookup_singleton_eq _ _))].
  intros _ _ o [H _]. exact (H Samples.photo eq_refl).
Defined.

(** C6. For a non-empty list of [n] downloaded images, [MediaPaths] and
    [MediaTypes] are arrays of length [n] whose [i]-th entries are the
    path and the content type of the [i]-th image; for an empty list
    both fields are as in the base. *)
Theorem rich_text_image_fields inboundCtx dm efi imgs mb (h : Heap) (b : Obj) :
  h !! inboundCtx = Some b ->
  returns (assignMediaFieldsToContext inboundCtx dm efi imgs mb) h
    (fun _ _ o =>
       (imgs <> [] ->
          exists paths types,
            o !! "MediaPaths" = Some (VStrings paths) /\
            o !! "MediaTypes" = Some (VStrings types) /\
            List.length paths = List.length imgs /\
            List.length types = List.length imgs /\
            forall i d, imgs !! i = Some d ->
              paths !! i = Some (DownloadedFile.path d) /\
              types !! i = Some (DownloadedFile.contentType d)) /\
       (imgs = [] ->
          o !! "MediaPaths" = b !! "MediaPaths" /\
          o !! "MediaTypes" = b !! "MediaTypes")).
Proof.
  intros Hb. eapply returns_overlay; [done|]. unfold overlay. split.
  - intros Hne. destruct imgs as [|x imgs]; [done|].
    rewrite !withImages_cons, !withBody_other by done.
    exists (map DownloadedFile.path (x :: imgs)),
           (map DownloadedFile.contentType (x :: imgs)).
    split; [by simplify_map_eq|]. split; [by simplify_map_eq|].
    rewrite !length_map. split; [done|]. split; [done|].
    intros i d Hi. split; by apply lookup_map.
  - intros ->. change (withImages [] mb) with (@id Obj). unfold id.
    rewrite !withMedia_other by done. by split.
Qed.

Lemma rich_text_image_fields_witness :
  returns
    (assignMediaFieldsToContext 1 None None [Samples.photo; Samples.scan]
       (Some "[2 pictures]"%string))
    {[1%positive := Samples.baseCtx]}
    (fun _ _ o =>
       exists paths types,
         o !! "MediaPaths" = Some (VStrings paths) /\
         o !! "MediaTypes" = Some (VStrings types) /\
         List.length paths = 2 /\
         List.length types = 2 /\
         paths !! 1 = Some "/tmp/dingtalk-file-b.jpg"%string /\
         types !! 1 = Some "image/jpeg"%string).
Proof.
  eapply returns_mono;
    [| exact (rich_text_image_fields 1 None None [Samples.photo; Samples.scan]
                (Some "[2 pictures]"%string)
                {[1%positive := Samples.baseCtx]} Samples.baseCtx
                (lookup_singleton_eq _ _))].
  intros _ _ o [H _].
  destruct (H ltac:(discriminate)) as (paths & types & Hp & Ht & Lp & Lt & Hi).
  exists paths, types. repeat split; try done.
  - exact (proj1 (Hi 1 Samples.scan eq_refl)).
  - exact (proj2 (Hi 1 Samples.scan eq_refl)).
Defined.

End InboundContextProofs.

(** * Properties of the file classifier *)
Module FileUtilsProofs.
Import JsString JsObject FileUtils FileSpec.

Local Open Scope Z_scope.
Local Arguments own : simpl never.

Lemma length_String c s : length (String c s) = length s + 1.
Proof. unfold length; simpl String.length; lia. Qed.

Lemma length_nonneg s : 0 <= length s.
Proof. unfold length; lia. Qed.

Lemma length_zero s : length s = 0 -> s = EmptyString.
Proof. destruct s; [done | rewrite length_String; pose proof (length_nonneg s); lia]. Qed.

Lemma lastIndexOfFrom_absent s c i found :
  contains s c = false -> lastIndexOfFrom s c i found = found.
Proof.
  revert i found; induction s as [|a r IH]; simpl; intros i found H; [done|].
  apply orb_false_elim in H as [-> H]. by apply IH.
Qed.

Lemma afterLastDot_None s :
  afterLastDot s = None <-> contains s "."%char = false.
Proof.
  induction s as [|a r IH]; simpl; [done|].
  destruct (afterLastDot r) as [suf|].
  - split; [done|]. intros [_ H]%orb_false_elim. apply IH in H. done.
  - destruct (Ascii.eqb a "."%char); simpl; [done|]. by rewrite <- IH.
Qed.

Lemma afterLastDot_length s suf :
  afterLastDot s = Some suf -> length suf + 1 <= length s.
Proof.
  revert suf; induction s as [|a r IH]; simpl; intros suf H; [done|].
  rewrite length_String. destruct (afterLastDot r) as [suf'|].
  - injection H as <-. specialize (IH _ eq_refl). lia.
  - destruct (Ascii.eqb a "."%char); [|done]. injection H as <-. lia.
Qed.

(** [lastIndexOf] finds the position just before the part that
    [afterLastDot] returns. *)
Lemma lastIndexOfFrom_afterLastDot s i found :
  lastIndexOfFrom s "."%char i found =
  match afterLastDot s with
  | Some suf => i + length s - length suf - 1
  | None => found
  end.
Proof.
  revert i found; induction s as [|a r IH]; simpl; intros i found; [done|].
  rewrite IH, length_String. destruct (afterLastDot r) as [suf|]; [lia|].
  destruct (Ascii.eqb a "."%char); [lia | done].
Qed.

Lemma drop_afterLastDot s suf :
  afterLastDot s = Some suf ->
  drop (Z.to_nat (length s - length suf - 1)) s = String "."%char suf.
Proof.
  revert suf; induction s as [|a r IH]; simpl afterLastDot; intros suf H; [done|].
  rewrite length_String. destruct (afterLastDot r) as [suf'|] eqn:E.
  - injection H as <-. pose proof (afterLastDot_length _ _ E).
    replace (Z.to_nat (length r + 1 - length suf' - 1))
      with (S (Z.to_nat (length r - length suf' - 1))) by lia.
    simpl. by apply IH.
  - destruct (Ascii.eqb a "."%char) eqn:Ea; [|done]. injection H as <-.
    apply Ascii.eqb_eq in Ea as ->.
    by replace (Z.to_nat (length r + 1 - length r - 1)) with O by lia.
Qed.

(** The index arithmetic of [extractExtension] computes the trailing
    extension. *)
Theorem extractExtension_trailing fileName :
  extractExtension fileName = default EmptyString (trailingExtension fileName).
Proof.
  unfold extractExtension, trailingExtension, lastIndexOf.
  rewrite lastIndexOfFrom_afterLastDot.
  destruct (afterLastDot fileName) as [suf|] eqn:E; [|done].
  pose proof (afterLastDot_length _ _ E) as Hlen.
  pose proof (length_nonneg suf) as Hsuf.
  pose proof (drop_afterLastDot _ _ E) as Hdrop.
  destruct suf as [|c r].
  - replace (0 + length fileName - length "" - 1 =? length fileName - 1) with true
      by (symmetry; apply Z.eqb_eq; unfold length; simpl; lia).
    by rewrite orb_true_r.
  - rewrite length_String in *. pose proof (length_nonneg r).
    replace (0 + length fileName - (length r + 1) - 1 =? -1) with false
      by (symmetry; apply Z.eqb_neq; lia).
    replace (0 + length fileName - (length r + 1) - 1 =? length fileName - 1) with false
      by (symmetry; apply Z.eqb_neq; lia).
    simpl orb. cbv iota. unfold slice.
    replace (0 + length fileName - (length r + 1) - 1 <? 0) with false
      by (symmetry; apply Z.ltb_ge; lia).
    rewrite Z.min_l by lia.
    replace (0 + length fileName - (length r + 1) - 1)
      with (length fileName - (length r + 1) - 1) by lia.
    by rewrite Hdrop.
Qed.

(** *** What the trailing extension is, in terms of the name *)

Lemma afterLastDot_app pre suf :
  contains suf "."%char = false ->
  afterLastDot (pre +:+ String "."%char suf) = Some suf.
Proof.
  intros H. induction pre as [|a r IH]; simpl.
  - apply afterLastDot_None in H. cbn. by rewrite H.
  - cbn. cbn in IH. by rewrite IH.
Qed.

Lemma trailingExtension_last_dot pre c suf :
  contains (String c suf) "."%char = false ->
  trailingExtension (pre +:+ String "."%char (String c suf)) =
  Some (toLowerCase (String "."%char (String c suf))).
Proof. intros H. unfold trailingExtension. by rewrite afterLastDot_app. Qed.

Lemma trailingExtension_no_dot fileName :
  contains fileName "."%char = false -> trailingExtension fileName = None.
Proof.
  intros H%afterLastDot_None. unfold trailingExtension. by rewrite H.
Qed.

Lemma trailingExtension_trailing_dot pre :
  trailingExtension (pre +:+ ".") = None.
Proof. unfold trailingExtension. by rewrite afterLastDot_app. Qed.

Lemma trailingExtension_shape fileName e :
  trailingExtension fileName = Some e -> exists r, e = String "."%char r.
Proof.
  unfold trailingExtension.
  destruct (afterLastDot fileName) as [[|c r]|]; intros H; try done.
  injection H as <-. by eexists.
Qed.

Lemma inherited_dot r : inherited (String "."%char r) = false.
Proof. reflexivity. Qed.

Lemma supplied_trailing fileName :
  supplied fileName ≫= trailingExtension = fileName ≫= trailingExtension.
Proof. by destruct fileName as [[|c r]|]. Qed.

Lemma hasProperty_own {A} (o : Literal A) k :
  inherited k = false -> hasProperty o k = bool_decide (is_Some (own o k)).
Proof.
  intros H. unfold hasProperty. destruct (own o k); [|rewrite H]; symmetry.
  - apply bool_decide_eq_true; eauto.
  - apply bool_decide_eq_false. by intros [? ?].
Qed.

Lemma get_own {A} (o : Literal A) k v : own o k = Some v -> get o k = Val v.
Proof. unfold get. by intros ->. Qed.

(** *** resolveExtension *)

(** Outside the names that every object literal inherits, the extension
    is resolved in the documented order: the name's own extension, then
    the content-type table, then [".bin"]. *)
Theorem resolveExtension_order contentType fileName :
  inherited (normalizeMime contentType) = false ->
  resolveExtension contentType fileName =
  Val (extensionByOrder contentType fileName).
Proof.
  intros Hproto. unfold resolveExtension, extensionByOrder.
  rewrite <- supplied_trailing.
  assert (Hmime :
    (if hasProperty MIME_TO_EXTENSION (normalizeMime contentType)
     then get MIME_TO_EXTENSION (normalizeMime contentType)
     else Val ".bin"%string) =
    Val (default ".bin"%string
           (own MIME_TO_EXTENSION (normalizeMime contentType)))).
  { unfold hasProperty, get.
    destruct (own MIME_TO_EXTENSION (normalizeMime contentType)); [done|].
    by rewrite Hproto. }
  destruct (supplied fileName) as [f|]; simpl; [|exact Hmime].
  rewrite extractExtension_trailing.
  destruct (trailingExtension f) as [e|] eqn:E; simpl; [|exact Hmime].
  by apply trailingExtension_shape in E as [r ->].
Qed.

(** C7. A content type that normalises to ["constructor"] is found by
    [in] on the prototype of [MIME_TO_EXTENSION]: without a usable file
    name [resolveExtension] returns the inherited member, where the
    documented order gives [".bin"]. *)
Theorem resolveExtension_inherited_member :
  resolveExtension "constructor" None = Builtin "constructor" /\
  own MIME_TO_EXTENSION (normalizeMime "constructor") = None /\
  extensionByOrder "constructor" None = ".bin"%string.
Proof. by vm_compute. Qed.

(** *** resolveFileCategory *)

(** C8 (amended). For every content type whose normalised form (cut at the
    first [';'], trimmed, lower-cased) is not a name inherited from
    [Object.prototype], and every optional file name, the result is the
    category given by the order prefix, content-type table, extension
    table, [other]. *)
Theorem resolveFileCategory_order contentType fileName :
  inherited (normalizeMime contentType) = false ->
  resolveFileCategory contentType fileName =
  Val (categoryByOrder normalizeMime contentType fileName).
Proof.
  intros Hproto. unfold resolveFileCategory, categoryByOrder, startsWith.
  destruct (String.prefix "image/" (normalizeMime contentType)); [done|].
  destruct (String.prefix "audio/" (normalizeMime contentType)); [done|].
  destruct (String.prefix "video/" (normalizeMime contentType)); [done|].
  unfold hasProperty at 1, get at 1. rewrite Hproto.
  destruct (own CATEGORY_BY_MIME (normalizeMime contentType)); [done|].
  rewrite <- supplied_trailing.
  destruct (supplied fileName) as [f|]; simpl; [|done].
  rewrite extractExtension_trailing.
  destruct (trailingExtension f) as [e|] eqn:E; simpl; [|done].
  apply trailingExtension_shape in E as [r ->].
  unfold hasProperty, get. rewrite inherited_dot. simpl truthy.
  by destruct (own CATEGORY_BY_EXTENSION (String "."%char r)).
Qed.

Lemma resolveFileCategory_order_witness :
  inherited (normalizeMime "application/octet-stream") = false /\
  resolveFileCategory "application/octet-stream" (Some "song.mp3"%string) =
  Val audio.
Proof.
  split; [reflexivity|].
  exact (resolveFileCategory_order "application/octet-stream"
           (Some "song.mp3"%string) eq_refl).
Defined.

(** C8 as stated, with a normalisation that only cuts at [';'] and
    lower-cases, misses the white space the code trims: the code files
    ["text/plain ; charset=utf-8"] under [document], the stated order
    under [other]. *)
Lemma resolveFileCategory_untrimmed_counterexample :
  resolveFileCategory "text/plain ; charset=utf-8" None = Val document /\
  categoryByOrder truncateLower "text/plain ; charset=utf-8" None = other /\
  ~ (forall contentType fileName,
       resolveFileCategory contentType fileName =
       Val (categoryByOrder truncateLower contentType fileName)).
Proof.
  split; [by vm_compute|]. split; [by vm_compute|].
  intros H. specialize (H "text/plain ; charset=utf-8"%string None).
  vm_compute in H. discriminate H.
Qed.

(** The [in] test on [CATEGORY_BY_MIME] finds inherited members as well:
    for them the result is no category. *)
Example resolveFileCategory_inherited_member :
  resolveFileCategory "constructor" None = Builtin "constructor" /\
  resolveFileCategory "__proto__; charset=utf-8" (Some "a.png"%string) =
  Builtin "__proto__".
Proof. by vm_compute. Qed.

(** *** Names that start with their only dot *)

(** C10 (amended). A file name made of a ['.'] followed by at least one
    character, none of them a ['.'], has its last dot at position 0 and is
    its own extension: [resolveExtension] returns the lower-cased name for
    every content type, and [resolveFileCategory], for a content type
    whose normalised form starts with none of the three prefixes, has no
    entry in the content-type table and is not a name inherited from
    [Object.prototype], looks the lower-cased name up in the extension
    table. *)
Theorem leading_dot_name_is_extension (rest : string) :
  rest <> EmptyString ->
  contains rest "."%char = false ->
  let fileName := String "."%char rest in
  lastIndexOf fileName "."%char = 0 /\
  (forall contentType,
     resolveExtension contentType (Some fileName) = Val (toLowerCase fileName)) /\
  (forall contentType,
     let m := normalizeMime contentType in
     startsWith m "image/" = false ->
     startsWith m "audio/" = false ->
     startsWith m "video/" = false ->
     own CATEGORY_BY_MIME m = None ->
     inherited m = false ->
     resolveFileCategory contentType (Some fileName) =
     Val (default other (own CATEGORY_BY_EXTENSION (toLowerCase fileName)))).
Proof.
  intros Hne Hno. cbv zeta.
  assert (Hafter : afterLastDot (String "."%char rest) = Some rest).
  { apply (afterLastDot_app EmptyString rest Hno). }
  assert (Hext : extractExtension (String "."%char rest) =
                 toLowerCase (String "."%char rest)).
  { rewrite extractExtension_trailing. unfold trailingExtension.
    rewrite Hafter. by destruct rest. }
  split; [|split].
  - unfold lastIndexOf. rewrite lastIndexOfFrom_afterLastDot, Hafter.
    rewrite length_String. lia.
  - intros contentType. unfold resolveExtension.
    change (supplied (Some (String "."%char rest)))
      with (Some (String "."%char rest)).
    cbv zeta. cbv iota beta. by rewrite Hext.
  - intros contentType H1 H2 H3 Hown Hinh. unfold resolveFileCategory.
    assert (H4 : hasProperty CATEGORY_BY_MIME (normalizeMime contentType) = false)
      by (unfold hasProperty; by rewrite Hown).
    rewrite H1, H2, H3, H4.
    change (supplied (Some (String "."%char rest)))
      with (Some (String "."%char rest)).
    cbv zeta. cbv iota beta. rewrite Hext.
    change (toLowerCase (String "."%char rest))
      with (String "."%char (toLowerCase rest)).
    unfold hasProperty, get. rewrite inherited_dot. simpl truthy.
    by destruct (own CATEGORY_BY_EXTENSION _).
Qed.

Lemma leading_dot_name_is_extension_witness :
  lastIndexOf ".gitignore" "."%char = 0 /\
  resolveExtension "text/plain" (Some ".gitignore"%string) = Val ".gitignore"%string /\
  resolveFileCategory "application/octet-stream" (Some ".zip"%string) = Val archive.
Proof.
  split; [|split].
  - exact (proj1 (leading_dot_name_is_extension "gitignore"
                    ltac:(discriminate) eq_refl)).
  - exact (proj1 (proj2 (leading_dot_name_is_extension "gitignore"
                    ltac:(discriminate) eq_refl)) "text/plain"%string).
  - exact (proj2 (proj2 (leading_dot_name_is_extension "zip"
                    ltac:(discriminate) eq_refl)) "application/octet-stream"%string
             eq_refl eq_refl eq_refl eq_refl eq_refl).
Defined.

(** C10 as stated also covers the name ["."]: its first character is a
    ['.'] at position 0 and no later one follows, yet the code treats it
    as a trailing dot and falls back to the content type. *)
Lemma lone_dot_counterexample :
  lastIndexOf "." "."%char = 0 /\
  contains EmptyString "."%char = false /\
  resolveExtension "image/png" (Some "."%string) = Val ".png"%string /\
  resolveExtension "image/png" (Some "."%string) <> Val (toLowerCase ".").
Proof. repeat split; by vm_compute. Qed.

End FileUtilsProofs.

(** * Properties of the message parsers *)
Module MediaProofs.
Import JsString MediaTypes Media.



Section WithParser.
Variable JSON_parse : string -> option Js.















End WithParser.



(** *** What the rich-text parser collects *)

Local Arguments firstCode : simpl never.

(** The three sequences are the projections of the element list: every
    text element gives one text and every at element one mention, in the
    order of the list, and the picture elements give their codes, those
    without one left out. *)
Lemma collect_projections items :
  textParts (collect items) = map (payload KText) (elementsOf KText items) /\
  mentions (collect items) = map (payload KAt) (elementsOf KAt items) /\
  imageCodes (collect items) = omap pictureCode (elementsOf KPicture items).
Proof.
  induction items as [|e items (IHt & IHm & IHi)]; [done|].
  unfold collect, elementsOf in *. simpl foldr. simpl List.filter.
  destruct e as [| | | | | |f]; simpl; try done.
  destruct (elementKind f) as [[]|]; simpl; try done.
  - by rewrite IHt.
  - destruct (firstCode f _); simpl; [|done].
    by rewrite IHi.
  - by rewrite IHm.
Qed.

(** The scenarios of the unit tests. *)
Example extract_invalid_input :
  extractFileFromMessage toyParse JNull = Returned None /\
  extractFileFromMessage toyParse JUndefined = Returned None /\
  extractFileFromMessage toyParse (JString "string") = Returned None /\
  extractFileFromMessage toyParse (JNumber 123) = Returned None /\
  extractFileFromMessage toyParse
    (JObject [("msgtype", JString "text");
              ("text", JObject [("content", JString "Hello")])]) = Returned None /\
  extractFileFromMessage toyParse
    (JObject [("msgtype", JString "picture"); ("content", JObject [])]) =
  Returned None.
Proof. by repeat split. Qed.

Example parse_invalid_input :
  parseRichTextMessage toyParse JNull = Returned None /\
  parseRichTextMessage toyParse JUndefined = Returned None /\
  parseRichTextMessage toyParse (JString "string") = Returned None.
Proof. by repeat split. Qed.

Example extract_picture_fallback :
  extractFileFromMessage toyParse
    (JObject [("msgtype", JString "picture");
              ("content", JObject [("pictureDownloadCode", JString "pic-1")])]) =
  Returned (Some (ExtractedFileInfo.mk "pic-1" picture None None None None)).
Proof. reflexivity. Qed.

Example extract_file_with_name_and_size :
  extractFileFromMessage toyParse
    (JObject [("msgtype", JString "file");
              ("content", JObject [("downloadCode", JString "f1");
                                   ("fileName", JString "a.pdf");
                                   ("fileSize", JNumber 10)])]) =
  Returned (Some (ExtractedFileInfo.mk "f1" file (Some "a.pdf"%string)
                    (Some 10%Z) None None)).
Proof. reflexivity. Qed.

Example extract_string_content :
  extractFileFromMessage toyParse
    (JObject [("msgtype", JString "picture");
              ("content", JString "{'downloadCode':'json-pic-333'}")]) =
  Returned (Some (ExtractedFileInfo.mk "json-pic-333" picture None None None None)).
Proof. reflexivity. Qed.

Example parse_mixed_rich_text :
  parseRichTextMessage toyParse
    (JObject [("msgtype", JString "richText");
              ("content", JObject [("richText", JArray
                 [ JObject [("type", JString "text"); ("text", JString "Hi")];
                   JObject [("type", JString "at"); ("userId", JString "u1")];
                   JObject [("type", JString "picture");
                            ("downloadCode", JString "c1")] ])])]) =
  Returned (Some (mkRichText [JString "Hi"] ["c1"%string] [JString "u1"])).
Proof. reflexivity. Qed.

Example parse_empty_rich_text :
  parseRichTextMessage toyParse
    (JObject [("msgtype", JString "richText");
              ("content", JObject [("richText", JString "[]")])]) =
  Returned None.
Proof. reflexivity. Qed.

End MediaProofs.

(** * Further properties of the file classifier *)
Module FileUtilsExtra.
Import JsString JsObject FileUtils FileSpec FileShape FileUtilsProofs.

Local Arguments own : simpl never.

(** ** Characters *)

Lemma toLowerChar_idem c : toLowerChar (toLowerChar c) = toLowerChar c.
Proof. destruct c as [[] [] [] [] [] [] [] []]; reflexivity. Qed.

Lemma toLowerChar_dot c :
  Ascii.eqb (toLowerChar c) "."%char = Ascii.eqb c "."%char.
Proof. destruct c as [[] [] [] [] [] [] [] []]; reflexivity. Qed.

Lemma toLowerChar_semicolon c :
  Ascii.eqb (toLowerChar c) ";"%char = Ascii.eqb c ";"%char.
Proof. destruct c as [[] [] [] [] [] [] [] []]; reflexivity. Qed.

Lemma toLowerChar_white c : isWhiteSpace (toLowerChar c) = isWhiteSpace c.
Proof. destruct c as [[] [] [] [] [] [] [] []]; reflexivity. Qed.

(** ** Lower-casing commutes with the other string operations *)

Lemma toLowerCase_idem s : toLowerCase (toLowerCase s) = toLowerCase s.
Proof. induction s as [|c r IH]; simpl; [done|]. by rewrite toLowerChar_idem, IH. Qed.

Lemma toLowerCase_empty s : toLowerCase s = EmptyString <-> s = EmptyString.
Proof. by destruct s. Qed.

Lemma contains_toLowerCase s :
  contains (toLowerCase s) "."%char = contains s "."%char.
Proof.
  induction s as [|c r IH]; simpl; [done|]. by rewrite toLowerChar_dot, IH.
Qed.

Lemma splitFirst_toLowerCase s :
  splitFirst (toLowerCase s) ";"%char = toLowerCase (splitFirst s ";"%char).
Proof.
  induction s as [|c r IH]; simpl; [done|]. rewrite toLowerChar_semicolon.
  destruct (Ascii.eqb c ";"%char); simpl; [done|]. by rewrite IH.
Qed.

Lemma trimStart_toLowerCase s :
  trimStart (toLowerCase s) = toLowerCase (trimStart s).
Proof.
  induction s as [|c r IH]; simpl; [done|]. rewrite toLowerChar_white.
  by destruct (isWhiteSpace c).
Qed.

Lemma trimEnd_toLowerCase s :
  trimEnd (toLowerCase s) = toLowerCase (trimEnd s).
Proof.
  induction s as [|c r IH]; simpl; [done|]. rewrite IH, toLowerChar_white.
  destruct (trimEnd r); simpl; [|done]. by destruct (isWhiteSpace c).
Qed.

Lemma trim_toLowerCase s : trim (toLowerCase s) = toLowerCase (trim s).
Proof. unfold trim. by rewrite trimStart_toLowerCase, trimEnd_toLowerCase. Qed.

Lemma normalizeMime_toLowerCase s : normalizeMime (toLowerCase s) = normalizeMime s.
Proof.
  unfold normalizeMime.
  by rewrite splitFirst_toLowerCase, trim_toLowerCase, toLowerCase_idem.
Qed.

Lemma afterLastDot_toLowerCase s :
  afterLastDot (toLowerCase s) = toLowerCase <$> afterLastDot s.
Proof.
  induction s as [|c r IH]; simpl; [done|]. rewrite IH, toLowerChar_dot.
  destruct (afterLastDot r); simpl; [done|]. by destruct (Ascii.eqb c "."%char).
Qed.

Lemma trailingExtension_toLowerCase s :
  trailingExtension (toLowerCase s) = trailingExtension s.
Proof.
  unfold trailingExtension. rewrite afterLastDot_toLowerCase.
  destruct (afterLastDot s) as [[|c r]|]; simpl; try done.
  by rewrite toLowerChar_idem, toLowerCase_idem.
Qed.

(** ** Both resolvers read only the normalised type and the extension *)

Lemma supplied_extension fileName :
  match supplied fileName with
  | Some f => extractExtension f
  | None => EmptyString
  end = nameExtension fileName.
Proof.
  unfold nameExtension. destruct fileName as [[|c r]|]; try done.
  change (supplied (Some (String c r))) with (Some (String c r)).
  cbv iota beta. by rewrite extractExtension_trailing.
Qed.

Lemma resolveFileCategory_reads contentType fileName :
  resolveFileCategory contentType fileName =
  classify (normalizeMime contentType) (nameExtension fileName).
Proof.
  unfold resolveFileCategory, classify. cbv zeta. rewrite <- supplied_extension.
  by destruct (supplied fileName).
Qed.

Lemma resolveExtension_reads contentType fileName :
  resolveExtension contentType fileName =
  extensionFor (normalizeMime contentType) (nameExtension fileName).
Proof.
  unfold resolveExtension, extensionFor. cbv zeta. rewrite <- supplied_extension.
  destruct (supplied fileName) as [f|]; [|done].
  by destruct (truthy (extractExtension f)).
Qed.

Lemma nameExtension_toLowerCase fileName :
  nameExtension (toLowerCase <$> fileName) = nameExtension fileName.
Proof.
  unfold nameExtension. destruct fileName as [f|]; [|done]. simpl.
  by rewrite trailingExtension_toLowerCase.
Qed.

(** X1. On strings of code units below 256, the range of [JsString],
    neither resolver looks at letter case: two content types that agree
    once lower-cased, with two file names that agree once lower-cased (or
    both absent), get the same category and the same extension.  (Beyond
    that range lower-casing depends on the context of a letter - a capital
    sigma at the end of a word - and cutting the extension off before
    lower-casing can then give another letter.) *)
Theorem resolvers_ignore_case contentType contentType' fileName fileName' :
  toLowerCase contentType = toLowerCase contentType' ->
  toLowerCase <$> fileName = toLowerCase <$> fileName' ->
  resolveFileCategory contentType fileName =
  resolveFileCategory contentType' fileName' /\
  resolveExtension contentType fileName =
  resolveExtension contentType' fileName'.
Proof.
  intros Hct Hfn. rewrite !resolveFileCategory_reads, !resolveExtension_reads.
  rewrite <- (normalizeMime_toLowerCase contentType),
          <- (normalizeMime_toLowerCase contentType'), Hct.
  rewrite <- (nameExtension_toLowerCase fileName),
          <- (nameExtension_toLowerCase fileName'), Hfn.
  done.
Qed.

Lemma resolvers_ignore_case_witness :
  resolveFileCategory "Application/Octet-Stream" (Some "SONG.MP3"%string) =
  resolveFileCategory "application/octet-stream" (Some "song.mp3"%string) /\
  resolveExtension "Application/Octet-Stream" (Some "SONG.MP3"%string) =
  resolveExtension "application/octet-stream" (Some "song.mp3"%string).
Proof.
  exact (resolvers_ignore_case "Application/Octet-Stream"
           "application/octet-stream" (Some "SONG.MP3"%string)
           (Some "song.mp3"%string) eq_refl eq_refl).
Defined.

(** ** Parameters of the content type *)

Lemma splitFirst_absent s c : contains s c = false -> splitFirst s c = s.
Proof.
  induction s as [|a r IH]; simpl; [done|].
  intros [-> H]%orb_false_elim. by rewrite IH.
Qed.

Lemma append_empty s : EmptyString +:+ s = s.
Proof. reflexivity. Qed.

Lemma append_String c r s : String c r +:+ s = String c (r +:+ s).
Proof. reflexivity. Qed.

Lemma splitFirst_app s c rest :
  contains s c = false -> splitFirst (s +:+ String c rest) c = s.
Proof.
  induction s as [|a r IH]; simpl contains.
  - intros _. rewrite append_empty. simpl. by rewrite Ascii.eqb_refl.
  - intros [Ha H]%orb_false_elim. rewrite append_String. simpl.
    by rewrite Ha, IH.
Qed.

(** X2. Whatever follows the first [';'] of a content type is ignored:
    a type without [';'] and the same type followed by [';'] and any
    parameters get the same category and the same extension. *)
Theorem resolvers_ignore_parameters contentType parameters fileName :
  contains contentType ";"%char = false ->
  resolveFileCategory (contentType +:+ String ";"%char parameters) fileName =
  resolveFileCategory contentType fileName /\
  resolveExtension (contentType +:+ String ";"%char parameters) fileName =
  resolveExtension contentType fileName.
Proof.
  intros H. rewrite !resolveFileCategory_reads, !resolveExtension_reads.
  unfold normalizeMime. by rewrite splitFirst_app, splitFirst_absent.
Qed.

Lemma resolvers_ignore_parameters_witness :
  resolveFileCategory "text/plain; charset=utf-8" (Some "notes"%string) =
  resolveFileCategory "text/plain" (Some "notes"%string) /\
  resolveExtension "text/plain; charset=utf-8" (Some "notes"%string) =
  resolveExtension "text/plain" (Some "notes"%string).
Proof.
  exact (resolvers_ignore_parameters "text/plain" " charset=utf-8"
           (Some "notes"%string) eq_refl).
Defined.

(** ** The shape of a resolved extension *)

Lemma afterLastDot_no_dot s suf :
  afterLastDot s = Some suf -> contains suf "."%char = false.
Proof.
  revert suf; induction s as [|c r IH]; simpl; intros suf H; [done|].
  destruct (afterLastDot r) as [suf'|] eqn:E.
  - injection H as <-. by apply IH.
  - destruct (Ascii.eqb c "."%char); [|done]. injection H as <-.
    by apply afterLastDot_None.
Qed.

Lemma trailingExtension_isExtension fileName e :
  trailingExtension fileName = Some e -> isExtension e = true.
Proof.
  unfold trailingExtension.
  destruct (afterLastDot fileName) as [[|c r]|] eqn:E; intros H; try done.
  injection H as <-. apply afterLastDot_no_dot in E.
  change (negb (contains (toLowerCase (String c r)) "."%char) &&
          String.eqb (toLowerCase (toLowerCase (String c r)))
                     (toLowerCase (String c r)) = true).
  by rewrite contains_toLowerCase, E, toLowerCase_idem, String.eqb_refl.
Qed.

Lemma nameExtension_isExtension fileName :
  truthy (nameExtension fileName) = true ->
  isExtension (nameExtension fileName) = true.
Proof.
  unfold nameExtension. destruct (fileName ≫= trailingExtension) as [e|] eqn:E.
  - intros _. destruct fileName as [f|]; [|done].
    by apply (trailingExtension_isExtension f).
  - done.
Qed.

Lemma own_forallb {A} (P : A -> bool) (o : Literal A) k v :
  forallb (fun entry => P (snd entry)) o = true ->
  own o k = Some v -> P v = true.
Proof.
  induction o as [|[k' v'] o IH]; simpl; [done|].
  intros [H1 H2]%andb_true_iff. unfold own; fold (@own A).
  destruct (String.eqb k' k); [by intros [= <-] | by apply IH].
Qed.

Lemma own_entry {A} (P : string * A -> bool) (o : Literal A) k v :
  forallb P o = true -> own o k = Some v -> P (k, v) = true.
Proof.
  induction o as [|[k' v'] o IH]; simpl; [done|].
  intros [H1 H2]%andb_true_iff. unfold own; fold (@own A).
  destruct (String.eqb k' k) eqn:E; [|by apply IH].
  apply String.eqb_eq in E as ->. by intros [= <-].
Qed.

Lemma get_Val {A} (o : Literal A) k v : get o k = Val v -> own o k = Some v.
Proof.
  unfold get. destruct (own o k); [by intros [= ->]|].
  by destruct (inherited k).
Qed.

Lemma table_extensions :
  forallb (fun entry => isExtension (snd entry)) MIME_TO_EXTENSION = true.
Proof. by vm_compute. Qed.

Lemma extensionFor_isExtension m ext e :
  (truthy ext = true -> isExtension ext = true) ->
  extensionFor m ext = Val e -> isExtension e = true.
Proof.
  intros Hext. unfold extensionFor. destruct (truthy ext).
  - intros [= <-]. by apply Hext.
  - destruct (hasProperty MIME_TO_EXTENSION m).
    + intros H%get_Val. exact (own_forallb _ _ _ _ table_extensions H).
    + by intros [= <-].
Qed.

Lemma isExtension_inv e :
  isExtension e = true ->
  exists c r, e = String "."%char (String c r) /\
              contains (String c r) "."%char = false /\
              toLowerCase (String c r) = String c r.
Proof.
  destruct e as [|d rest]; [done|]. unfold isExtension. intros H.
  apply andb_true_iff in H as [H Hl]. apply andb_true_iff in H as [H Hc].
  apply andb_true_iff in H as [Hd Ht].
  apply String.eqb_eq in Hl. apply negb_true_iff in Hc.
  apply Ascii.eqb_eq in Hd as ->.
  destruct rest as [|c r]; [done|]. by exists c, r.
Qed.



(** ** Naming a file after its resolved extension *)

Lemma isExtension_nameExtension stem e :
  isExtension e = true -> nameExtension (Some (stem +:+ e)) = e.
Proof.
  intros (c & r & -> & Hno & Hlow)%isExtension_inv.
  unfold nameExtension. simpl mbind.
  rewrite (trailingExtension_last_dot stem c r Hno).
  change (toLowerCase (String "."%char (String c r)))
    with (String "."%char (toLowerCase (String c r))).
  by rewrite Hlow.
Qed.

(** X4. The resolved extension is stable: a file whose name ends in an
    extension that [resolveExtension] returned resolves to that extension
    again, whatever content type comes with it. *)
Theorem resolved_extension_is_stable contentType fileName e :
  resolveExtension contentType fileName = Val e ->
  forall contentType' stem,
    resolveExtension contentType' (Some (stem +:+ e)) = Val e.
Proof.
  rewrite resolveExtension_reads. intros H contentType' stem.
  assert (He : isExtension e = true).
  { eapply extensionFor_isExtension; [|exact H].
    apply nameExtension_isExtension. }
  rewrite resolveExtension_reads, (isExtension_nameExtension stem e He).
  unfold extensionFor.
  by destruct (isExtension_inv e He) as (c & r & -> & _).
Qed.

Lemma resolved_extension_is_stable_witness :
  resolveExtension "audio/mpeg" None = Val ".mp3"%string /\
  resolveExtension "text/plain" (Some "voice.note.mp3"%string) = Val ".mp3"%string.
Proof.
  split; [reflexivity|].
  exact (resolved_extension_is_stable "audio/mpeg" None ".mp3" eq_refl
           "text/plain" "voice.note").
Defined.

(** ** The three tables agree *)

Lemma tables_agree : forallb entryAgrees MIME_TO_EXTENSION = true.
Proof. by vm_compute. Qed.

Lemma classify_unknown m ext :
  classify m EmptyString = Val other ->
  classify m ext =
  if truthy ext && hasProperty CATEGORY_BY_EXTENSION ext
  then get CATEGORY_BY_EXTENSION ext else Val other.
Proof.
  unfold classify.
  destruct (startsWith m "image/"); [done|].
  destruct (startsWith m "audio/"); [done|].
  destruct (startsWith m "video/"); [done|].
  destruct (hasProperty CATEGORY_BY_MIME m) eqn:E; [|done].
  intros H%get_Val. exfalso. revert H.
  generalize m. clear. intros m H.
  assert (Hall : forallb (fun entry : string * FileCategory =>
                            negb (bool_decide (snd entry = other)))
                         CATEGORY_BY_MIME = true) by by vm_compute.
  pose proof (own_forallb (fun c => negb (bool_decide (c = other))) _ _ _ Hall H) as Hc.
  vm_compute in Hc. discriminate Hc.
Qed.

(** X5. The tables agree with one another: when the content-type table
    gives an extension for a content type, a file that carries this
    extension and comes with a content type the classifier does not know is
    put in the category of the first content type. *)
Theorem extension_keeps_category contentType e unknownType stem :
  own MIME_TO_EXTENSION (normalizeMime contentType) = Some e ->
  resolveFileCategory unknownType None = Val other ->
  resolveExtension contentType None = Val e /\
  resolveFileCategory unknownType (Some (stem +:+ e)) =
  resolveFileCategory contentType None.
Proof.
  intros He Hun. split.
  - rewrite resolveExtension_reads. unfold extensionFor, nameExtension. simpl.
    unfold hasProperty. rewrite He. by apply get_own.
  - rewrite resolveFileCategory_reads in Hun.
    rewrite !resolveFileCategory_reads.
    change (nameExtension None) with EmptyString in *.
    rewrite (classify_unknown _ (nameExtension (Some (stem +:+ e))) Hun).
    rewrite (isExtension_nameExtension stem e
               (own_forallb _ _ _ _ table_extensions He)).
    pose proof (own_entry _ _ _ _ tables_agree He) as Hag.
    unfold entryAgrees in Hag. simpl fst in Hag. simpl snd in Hag.
    destruct (classify (normalizeMime contentType) EmptyString) as [c| |];
      try done.
    unfold hasProperty, get.
    destruct (own CATEGORY_BY_EXTENSION e) as [c'|]; [|done].
    apply bool_decide_eq_true in Hag as ->.
    pose proof (own_forallb _ _ _ _ table_extensions He) as Hext.
    by destruct (isExtension_inv e Hext) as (c0 & r & -> & _).
Qed.

Lemma extension_keeps_category_witness :
  resolveExtension "Video/QuickTime; codecs=avc1" None = Val ".mov"%string /\
  resolveFileCategory "application/octet-stream" (Some "holiday.mov"%string) =
  resolveFileCategory "Video/QuickTime; codecs=avc1" None.
Proof.
  exact (extension_keeps_category "Video/QuickTime; codecs=avc1" ".mov"
           "application/octet-stream" "holiday" eq_refl eq_refl).
Defined.

(** ** Content type against file name *)

(** X6. A content type that is recognised on its own decides the
    category: whenever [resolveFileCategory] gives something else than
    [other] without a file name, it gives the same with any file name - the
    opposite of [resolveExtension], where the name's extension comes
    first. *)
Theorem recognised_type_decides_category contentType fileName :
  resolveFileCategory contentType None <> Val other ->
  resolveFileCategory contentType fileName =
  resolveFileCategory contentType None.
Proof.
  rewrite !resolveFileCategory_reads.
  change (nameExtension None) with EmptyString. unfold classify.
  destruct (startsWith _ "image/"); [done|].
  destruct (startsWith _ "audio/"); [done|].
  destruct (startsWith _ "video/"); [done|].
  by destruct (hasProperty CATEGORY_BY_MIME _).
Qed.

Lemma recognised_type_decides_category_witness :
  resolveFileCategory "application/pdf" (Some "archive.zip"%string) = Val document /\
  resolveExtension "application/pdf" (Some "archive.zip"%string) = Val ".zip"%string.
Proof.
  split; [|reflexivity].
  exact (recognised_type_decides_category "application/pdf"
           (Some "archive.zip"%string) ltac:(discriminate)).
Defined.

(** ** Where the resolvers leave their result type *)

Lemma inherited_lower s :
  inherited (toLowerCase s) = true ->
  toLowerCase s = "constructor"%string \/ toLowerCase s = "__proto__"%string.
Proof.
  unfold inherited. intros (k & Hk & E)%existsb_exists.
  apply String.eqb_eq in E. pose proof (toLowerCase_idem s) as Hidem.
  rewrite E in *. clear E. simpl in Hk.
  repeat (destruct Hk as [<- | Hk]; [first [by left | by right | discriminate Hidem]|]).
  done.
Qed.

Lemma inherited_normalizeMime contentType :
  inherited (normalizeMime contentType) = true ->
  normalizeMime contentType = "constructor"%string \/
  normalizeMime contentType = "__proto__"%string.
Proof. apply inherited_lower. Qed.

(** X7. The resolvers return something else than a category or an
    extension for exactly the content types that normalise to
    ["constructor"] or ["__proto__"].  For these [resolveFileCategory]
    returns the inherited member whatever the file name, and
    [resolveExtension] does whenever the name gives no extension; for every
    other content type both return a proper value. *)
Theorem improper_results_characterised contentType fileName :
  let m := normalizeMime contentType in
  (m = "constructor"%string \/ m = "__proto__"%string ->
     resolveFileCategory contentType fileName = Builtin m /\
     (fileName ≫= trailingExtension = None ->
        resolveExtension contentType fileName = Builtin m)) /\
  (m <> "constructor"%string -> m <> "__proto__"%string ->
     (exists c, resolveFileCategory contentType fileName = Val c) /\
     (exists e, resolveExtension contentType fileName = Val e)).
Proof.
  cbv zeta. rewrite resolveFileCategory_reads, resolveExtension_reads. split.
  - intros Hm. split.
    + by destruct Hm as [-> | ->].
    + intros Hno. unfold nameExtension. rewrite Hno.
      by destruct Hm as [-> | ->].
  - intros H1 H2.
    assert (Hin : inherited (normalizeMime contentType) = false).
    { destruct (inherited (normalizeMime contentType)) eqn:E; [|done].
      by destruct (inherited_normalizeMime _ E). }
    split.
    + unfold classify.
      destruct (startsWith _ "image/"); [by eexists|].
      destruct (startsWith _ "audio/"); [by eexists|].
      destruct (startsWith _ "video/"); [by eexists|].
      unfold hasProperty at 1, get at 1. rewrite Hin.
      destruct (own CATEGORY_BY_MIME _); [by eexists|].
      destruct (truthy (nameExtension fileName)) eqn:Et; [|by eexists].
      apply nameExtension_isExtension, isExtension_inv in Et
        as (c & r & -> & _).
      unfold hasProperty, get. rewrite inherited_dot. simpl andb.
      destruct (own CATEGORY_BY_EXTENSION _); by eexists.
    + unfold extensionFor.
      destruct (truthy (nameExtension fileName)); [by eexists|].
      unfold hasProperty, get. rewrite Hin.
      destruct (own MIME_TO_EXTENSION _); by eexists.
Qed.

Lemma improper_results_characterised_witness :
  resolveFileCategory "Constructor ; q=1" (Some "a.png"%string) =
  Builtin "constructor" /\
  (exists e, resolveExtension "text/unknown" (Some "a"%string) = Val e).
Proof.
  split.
  - exact (proj1 (proj1 (improper_results_characterised "Constructor ; q=1"
                           (Some "a.png"%string)) (or_introl eq_refl))).
  - exact (proj2 (proj2 (improper_results_characterised "text/unknown"
                           (Some "a"%string))
                    ltac:(discriminate) ltac:(discriminate))).
Defined.

End FileUtilsExtra.

(** * Further properties of the context assembly *)
Module InboundContextExtra.
Import JsString JsHeap MediaTypes InboundContext ContextLogic ContextAlgebra.
Import InboundContextProofs.

Lemma assignment_id : Assignment id.
Proof. exists ∅. intros o. by rewrite (left_id_L ∅ (∪)). Qed.

Lemma assignment_insert k v : Assignment (insert k v).
Proof. exists {[k := v]}. intros o. apply insert_union_singleton_l. Qed.

Lemma assignment_compose f g :
  Assignment f -> Assignment g -> Assignment (f ∘ g).
Proof.
  intros [wf Hf] [wg Hg]. exists (wf ∪ wg). intros o. simpl.
  by rewrite Hf, Hg, (assoc_L (∪)).
Qed.

Lemma assignment_idem f (o : Obj) : Assignment f -> f (f o) = f o.
Proof.
  intros [w Hw]. by rewrite !Hw, (assoc_L (∪)), (idemp_L (∪)).
Qed.

Lemma assignment_keeps f (o : Obj) k :
  Assignment f -> is_Some (o !! k) -> is_Some (f o !! k).
Proof. intros [w Hw] H. rewrite Hw. apply lookup_union_is_Some. by right. Qed.

Ltac assignment :=
  repeat first
    [ apply assignment_id | apply assignment_insert
    | apply assignment_compose ].

Lemma withBody_assignment mb : Assignment (withBody mb).
Proof. unfold withBody. destruct (truthyString mb); assignment. Qed.

Lemma withFile_assignment efi : Assignment (withFile efi).
Proof.
  unfold withFile. destruct efi as [info|]; [|assignment].
  destruct (bool_decide _); [|assignment].
  destruct (ExtractedFileInfo.fileSize info),
    (truthyString (ExtractedFileInfo.fileName info)); assignment.
Qed.

Lemma withTranscript_assignment efi : Assignment (withTranscript efi).
Proof.
  unfold withTranscript. destruct efi as [info|]; [|assignment].
  destruct (bool_decide _); [|assignment].
  destruct (truthyString (ExtractedFileInfo.recognition info)); assignment.
Qed.

Lemma withMedia_assignment dm efi mb : Assignment (withMedia dm efi mb).
Proof.
  unfold withMedia. destruct dm as [d|]; [|assignment].
  repeat first
    [ apply withTranscript_assignment | apply withFile_assignment
    | apply withBody_assignment | apply assignment_insert
    | apply assignment_compose ].
Qed.

Lemma withImages_assignment imgs mb : Assignment (withImages imgs mb).
Proof.
  unfold withImages. destruct (_ <? _)%Z; [|assignment].
  repeat first
    [ apply withBody_assignment | apply assignment_insert
    | apply assignment_compose ].
Qed.

Lemma overlay_assignment dm efi imgs mb : Assignment (overlay dm efi imgs mb).
Proof.
  apply (assignment_compose (withImages imgs mb) (withMedia dm efi mb)).
  - apply withImages_assignment.
  - apply withMedia_assignment.
Qed.

(** X8. Without downloaded media and without images the result is an
    exact copy of the base - every field, whatever the descriptor and the
    media body are. *)
Theorem no_media_copies_base inboundCtx efi mb (h : Heap) (b : Obj) :
  h !! inboundCtx = Some b ->
  returns (assignMediaFieldsToContext inboundCtx None efi [] mb) h
    (fun _ _ o => o = b).
Proof. intros Hb. by eapply returns_overlay. Qed.

Lemma no_media_copies_base_witness :
  returns
    (assignMediaFieldsToContext 1 None (Some Samples.voice) []
       (Some "[audio]"%string))
    {[1%positive := Samples.linkedCtx]}
    (fun _ _ o => o = Samples.linkedCtx).
Proof.
  exact (no_media_copies_base 1 (Some Samples.voice) (Some "[audio]"%string)
           {[1%positive := Samples.linkedCtx]} Samples.linkedCtx
           (lookup_singleton_eq _ _)).
Defined.

(** X9. The call only ever touches ten properties - [MediaPath],
    [MediaType], [Body], [RawBody], [CommandBody], [FileName], [FileSize],
    [Transcript], [MediaPaths], [MediaTypes] - and removes none: every other
    property of the result is as in the base, and every property of the
    base is still present in the result. *)
Theorem only_media_fields_change inboundCtx dm efi imgs mb (h : Heap) (b : Obj) :
  h !! inboundCtx = Some b ->
  returns (assignMediaFieldsToContext inboundCtx dm efi imgs mb) h
    (fun _ _ o =>
       (forall k, k ∉ writable -> o !! k = b !! k) /\
       (forall k, is_Some (b !! k) -> is_Some (o !! k))).
Proof.
  intros Hb. eapply returns_overlay; [done|]. split.
  - intros k Hk. unfold writable in Hk.
    repeat (apply not_elem_of_cons in Hk as [? Hk]).
    unfold overlay. by rewrite withImages_other, withMedia_other.
  - intros k. apply assignment_keeps, overlay_assignment.
Qed.

Lemma only_media_fields_change_witness :
  returns
    (assignMediaFieldsToContext 1 (Some Samples.photo) (Some Samples.report)
       [Samples.scan] (Some "[file]"%string))
    {[1%positive := Samples.linkedCtx]}
    (fun _ _ o =>
       o !! "MediaUrl" = Some (VString "https://cdn.example/a.png") /\
       is_Some (o !! "Body")).
Proof.
  eapply returns_mono;
    [| exact (only_media_fields_change 1 (Some Samples.photo)
                (Some Samples.report) [Samples.scan] (Some "[file]"%string)
                {[1%positive := Samples.linkedCtx]} Samples.linkedCtx
                (lookup_singleton_eq _ _))].
  intros _ _ o [Hframe Hkeep]. split.
  - rewrite Hframe; [reflexivity|]. unfold writable.
    repeat (apply not_elem_of_cons; split; [discriminate|]).
    apply not_elem_of_nil.
  - apply Hkeep. by eexists.
Defined.

(** X10. The call is idempotent: applied with the same arguments to the
    record it has just returned, it returns another new record with exactly
    the same fields. *)
Theorem overlay_twice inboundCtx dm efi imgs mb (h : Heap) (b : Obj) :
  h !! inboundCtx = Some b ->
  returns (assignMediaFieldsToContext inboundCtx dm efi imgs mb) h
    (fun ctx h' o =>
       returns (assignMediaFieldsToContext ctx dm efi imgs mb) h'
         (fun ctx' _ o' => ctx' <> ctx /\ o' = o)).
Proof.
  intros Hb. eapply returns_overlay; [done|].
  eapply returns_overlay; [apply lookup_insert_eq|]. split.
  - intros E.
    pose proof (is_fresh (dom (<[fresh (dom h) := overlay dm efi imgs mb b]> h)))
      as Hfresh.
    rewrite E in Hfresh. apply Hfresh. rewrite dom_insert_L. set_solver.
  - apply assignment_idem, overlay_assignment.
Qed.

Lemma overlay_twice_witness :
  returns
    (assignMediaFieldsToContext 1 (Some Samples.photo) (Some Samples.report)
       [Samples.scan] (Some "[file]"%string))
    {[1%positive := Samples.baseCtx]}
    (fun ctx h' o =>
       returns
         (assignMediaFieldsToContext ctx (Some Samples.photo)
            (Some Samples.report) [Samples.scan] (Some "[file]"%string)) h'
         (fun ctx' _ o' => ctx' <> ctx /\ o' = o)).
Proof.
  exact (overlay_twice 1 (Some Samples.photo) (Some Samples.report)
           [Samples.scan] (Some "[file]"%string)
           {[1%positive := Samples.baseCtx]} Samples.baseCtx
           (lookup_singleton_eq _ _)).
Defined.

(** X11. A descriptor that is absent or not of type [file] leaves
    [FileName] and [FileSize] as in the base, even when it carries a name
    and a size; one that is absent or not of type [audio] leaves
    [Transcript] as in the base, even when it carries a recognition. *)
Theorem other_types_set_no_extras inboundCtx dm efi imgs mb (h : Heap) (b : Obj) :
  h !! inboundCtx = Some b ->
  returns (assignMediaFieldsToContext inboundCtx dm efi imgs mb) h
    (fun _ _ o =>
       ((forall info, efi = Some info -> ExtractedFileInfo.msgType info <> file) ->
          o !! "FileName" = b !! "FileName" /\
          o !! "FileSize" = b !! "FileSize") /\
       ((forall info, efi = Some info -> ExtractedFileInfo.msgType info <> audio) ->
          o !! "Transcript" = b !! "Transcript")).
Proof.
  intros Hb. eapply returns_overlay; [done|]. unfold overlay.
  rewrite !withImages_other by done.
  destruct dm as [d|]; [|by repeat split]. rewrite !withMedia_Some. split.
  - intros Hno. rewrite !withTranscript_other by done.
    assert (Hid : forall o : Obj, withFile efi o = o).
    { intros o. unfold withFile. destruct efi as [info|]; [|done].
      by rewrite bool_decide_eq_false_2 by by apply Hno. }
    rewrite Hid, !withBody_other by done. by simplify_map_eq.
  - intros Hno.
    assert (Hid : forall o : Obj, withTranscript efi o = o).
    { intros o. unfold withTranscript. destruct efi as [info|]; [|done].
      by rewrite bool_decide_eq_false_2 by by apply Hno. }
    rewrite Hid, withFile_other, withBody_other by done. by simplify_map_eq.
Qed.

Lemma other_types_set_no_extras_witness :
  returns
    (assignMediaFieldsToContext 1 (Some Samples.photo) (Some Samples.voice)
       [] (Some "[audio]"%string))
    {[1%positive := Samples.baseCtx]}
    (fun _ _ o => o !! "FileName" = None /\ o !! "FileSize" = None).
Proof.
  eapply returns_mono;
    [| exact (other_types_set_no_extras 1 (Some Samples.photo)
                (Some Samples.voice) [] (Some "[audio]"%string)
                {[1%positive := Samples.baseCtx]} Samples.baseCtx
                (lookup_singleton_eq _ _))].
  intros _ _ o [H _]. apply H. by intros info [= <-].
Defined.

End InboundContextExtra.

(** * Trimming *)
Module TrimFacts.
Import JsString StringShape.

Lemma append_nil_l s : EmptyString +:+ s = s.
Proof. reflexivity. Qed.

Lemma append_cons c r s : String c r +:+ s = String c (r +:+ s).
Proof. reflexivity. Qed.

Lemma trimEnd_idem s : trimEnd (trimEnd s) = trimEnd s.
Proof.
  induction s as [|c r IH]; simpl; [done|].
  destruct (trimEnd r) as [|c' r'] eqn:E.
  - destruct (isWhiteSpace c) eqn:Ec; simpl; [done|]. by rewrite Ec.
  - simpl. simpl in IH. by rewrite IH.
Qed.

Lemma trimEnd_head c r c' r' :
  trimEnd (String c r) = String c' r' -> c' = c.
Proof.
  simpl. destruct (trimEnd r); [destruct (isWhiteSpace c)|]; congruence.
Qed.

Lemma trimStart_head c r :
  trimStart (String c r) = String c r <-> isWhiteSpace c = false.
Proof.
  simpl. destruct (isWhiteSpace c) eqn:E; [|done]. split; [|done].
  intros H. exfalso.
  assert (Hlen : forall s, String.length (trimStart s) <= String.length s).
  { clear. induction s as [|a s IH]; simpl; [lia|].
    destruct (isWhiteSpace a); simpl; lia. }
  specialize (Hlen r). rewrite H in Hlen. simpl in Hlen. lia.
Qed.

Lemma trimStart_fixed s :
  trimStart s = EmptyString \/
  exists c r, trimStart s = String c r /\ isWhiteSpace c = false.
Proof.
  induction s as [|c r IH]; simpl; [by left|].
  destruct (isWhiteSpace c) eqn:E; [done|]. right. by exists c, r.
Qed.

Lemma trimEnd_app a b :
  trimEnd b <> EmptyString -> trimEnd (a +:+ b) = a +:+ trimEnd b.
Proof.
  intros Hb. induction a as [|c r IH].
  - by rewrite !append_nil_l.
  - rewrite !append_cons. simpl. rewrite IH.
    destruct (r +:+ trimEnd b) as [|c' r'] eqn:E; [|done].
    destruct r; [by rewrite append_nil_l in E | by rewrite append_cons in E].
Qed.

Lemma trim_tight s : trim s <> EmptyString -> Tight (trim s).
Proof.
  intros Hne. split; [done|]. unfold trim in *. split; [|apply trimEnd_idem].
  destruct (trimStart_fixed s) as [E | (c & r & E & Hc)].
  - rewrite E in Hne. done.
  - rewrite E in *. destruct (trimEnd (String c r)) as [|c' r'] eqn:Et; [done|].
    apply trimEnd_head in Et as ->. by apply trimStart_head.
Qed.

Lemma tight_trim s : Tight s -> trim s = s.
Proof. intros (_ & Hs & He). unfold trim. by rewrite Hs, He. Qed.

Lemma trim_idem s : trim (trim s) = trim s.
Proof.
  destruct (trim s) as [|c r] eqn:E; [done|]. rewrite <- E.
  apply tight_trim, trim_tight. by rewrite E.
Qed.

Lemma tight_append a sep b : Tight a -> Tight b -> Tight (a +:+ sep +:+ b).
Proof.
  intros (Ha & Hsa & Hea) (Hb & Hsb & Heb). destruct a as [|c r]; [done|].
  split; [by rewrite append_cons|]. split.
  - rewrite append_cons. apply trimStart_head. by apply trimStart_head in Hsa.
  - rewrite !trimEnd_app, Heb; [done| by rewrite Heb |].
    rewrite trimEnd_app, Heb by by rewrite Heb.
    destruct sep; [by rewrite append_nil_l | by rewrite append_cons].
Qed.

End TrimFacts.

(** * Properties of the transcript extraction *)
Module TencentFlashProofs.
Import JsString StringShape Media TencentFlash TrimFacts.

Lemma usableText_tight v t : usableText v = Some t -> Tight t.
Proof.
  unfold usableText. destruct (optionalField v "text"); try done.
  destruct (truthy (trim s)) eqn:E; [|done]. intros [= <-].
  apply trim_tight. by destruct (trim s).
Qed.

Lemma itemLines_tight item : Forall Tight (itemLines item).
Proof.
  unfold itemLines. destruct (usableText item) as [t|] eqn:E.
  - apply Forall_cons. split; [by apply (usableText_tight item) | constructor].
  - apply Forall_forall. intros t (s & _ & Hs)%list_elem_of_omap.
    by apply (usableText_tight s).
Qed.

Lemma transcriptLines_tight payload : Forall Tight (transcriptLines payload).
Proof.
  unfold transcriptLines.
  induction (arrayOrEmpty (field payload "flash_result")) as [|item items IH];
    simpl; [constructor|].
  apply Forall_app. split; [apply itemLines_tight | exact IH].
Qed.

Lemma join_tight sep lines :
  Forall Tight lines -> lines <> [] -> Tight (join sep lines).
Proof.
  induction lines as [|x rest IH]; [done|]. intros Hall _.
  apply Forall_cons in Hall as [Hx Hrest].
  destruct rest as [|y rest]; [done|].
  change (join sep (x :: y :: rest)) with (x +:+ sep +:+ join sep (y :: rest)).
  apply tight_append; [done|]. by apply IH.
Qed.

Lemma join_empty sep lines :
  Forall Tight lines -> join sep lines = EmptyString <-> lines = [].
Proof.
  intros Hall. split; [|by intros ->]. intros H.
  destruct lines as [|x rest]; [done|].
  destruct (join_tight sep (x :: rest) Hall) as [Hne _]; [done|]. done.
Qed.

Lemma itemLines_nil item :
  itemLines item = [] <->
  usableText item = None /\
  forall s, s ∈ arrayOrEmpty (optionalField item "sentence_list") ->
            usableText s = None.
Proof.
  unfold itemLines. destruct (usableText item) as [t|]; [by split; [|intros [? _]]|].
  split.
  - intros H. split; [done|]. intros s Hs.
    destruct (usableText s) as [t|] eqn:E; [|done].
    assert (t ∈ omap usableText (arrayOrEmpty (optionalField item "sentence_list")))
      as Ht by (apply list_elem_of_omap; eauto).
    rewrite H in Ht. by apply elem_of_nil in Ht.
  - intros [_ H].
    destruct (omap usableText _) as [|t l] eqn:E; [done|].
    assert (t ∈ omap usableText (arrayOrEmpty (optionalField item "sentence_list")))
      as Ht by (rewrite E; apply list_elem_of_here).
    apply list_elem_of_omap in Ht as (s & Hs & Hst).
    by rewrite (H s Hs) in Hst.
Qed.

Lemma elem_of_map {A B} (f : A -> B) (l : list A) y :
  y ∈ map f l <-> exists x, y = f x /\ x ∈ l.
Proof.
  rewrite list_elem_of_In, in_map_iff. split.
  - intros (x & <- & Hx). exists x. by rewrite list_elem_of_In.
  - intros (x & -> & Hx). exists x. by rewrite <- list_elem_of_In.
Qed.

Lemma concat_nil {A} (ls : list (list A)) :
  List.concat ls = [] <-> forall l, l ∈ ls -> l = [].
Proof.
  induction ls as [|l ls IH]; simpl.
  - split; [|done]. intros _ l Hl. by apply elem_of_nil in Hl.
  - split.
    + intros [-> H]%app_eq_nil l' [->|Hl]%elem_of_cons; [done|].
      by apply IH.
    + intros H. rewrite (H l) by apply list_elem_of_here. simpl.
      apply IH. intros l' Hl. apply H. by apply list_elem_of_further.
Qed.

Lemma transcript_lines_joined_aux payload :
  Forall Tight (transcriptLines payload) /\
  extractTranscript payload = join LF (transcriptLines payload).
Proof.
  pose proof (transcriptLines_tight payload) as Hall.
  split; [done|]. unfold extractTranscript.
  destruct (transcriptLines payload) as [|x rest] eqn:E; [done|].
  apply tight_trim, join_tight; done.
Qed.

(** X12. Every line that [extractTranscript] collects is non-empty and
    trimmed, so its closing [trim] changes nothing: the transcript is the
    collected lines joined by line feeds, and it has no white space at
    either end. *)
Theorem transcript_is_joined_lines payload :
  Forall Tight (transcriptLines payload) /\
  extractTranscript payload = join LF (transcriptLines payload) /\
  trim (extractTranscript payload) = extractTranscript payload.
Proof.
  destruct (transcript_lines_joined_aux payload) as [Hall Hjoin].
  split; [done|]. split; [done|]. unfold extractTranscript. apply trim_idem.
Qed.

(** X13. The transcript is empty exactly when [flash_result] offers no
    usable text: no item has a text that is a non-blank string, and no
    sentence of any item has one.  (A payload whose [flash_result] is
    missing or no array is such a case.) *)
Theorem transcript_empty_iff payload :
  extractTranscript payload = EmptyString <->
  forall item, item ∈ arrayOrEmpty (field payload "flash_result") ->
    usableText item = None /\
    forall s, s ∈ arrayOrEmpty (optionalField item "sentence_list") ->
              usableText s = None.
Proof.
  destruct (transcript_lines_joined_aux payload) as [Hall ->].
  rewrite (join_empty LF _ Hall). unfold transcriptLines.
  rewrite concat_nil. split.
  - intros H item Hitem. apply itemLines_nil, H, elem_of_map.
    by exists item.
  - intros H l (item & -> & Hitem)%elem_of_map.
    by apply itemLines_nil, H.
Qed.

Lemma transcript_empty_iff_witness :
  extractTranscript
    [("code", JNumber 0);
     ("flash_result", JArray
        [ JObject [("text", JString "   ");
                   ("sentence_list", JArray [JObject [("text", JNumber 7)]; JNull])];
          JString "stray" ])] = EmptyString.
Proof.
  apply (transcript_empty_iff _).
  intros item Hitem. simpl in Hitem.
  repeat (apply elem_of_cons in Hitem as [-> | Hitem]);
    [| | by apply elem_of_nil in Hitem].
  - split; [reflexivity|]. intros s Hs. simpl in Hs.
    repeat (apply elem_of_cons in Hs as [-> | Hs]);
      [reflexivity | reflexivity | by apply elem_of_nil in Hs].
  - split; [reflexivity|]. intros s Hs. by apply elem_of_nil in Hs.
Defined.

(** An item with a usable text hides its sentences; one without falls back
    to them. *)
Example transcript_of_mixed_items :
  extractTranscript
    [("flash_result", JArray
        [ JObject [("text", JString " hello ");
                   ("sentence_list", JArray [JObject [("text", JString "hidden")]])];
          JObject [("sentence_list", JArray
                      [ JObject [("text", JString "world ")];
                        JObject [("text", JString "")];
                        JObject [("text", JString "again")] ])] ])] =
  "hello" +:+ LF +:+ "world" +:+ LF +:+ "again".
Proof. reflexivity. Qed.

End TencentFlashProofs.

(** * Properties of the account configuration *)
Module WecomConfigProofs.
Import JsString StringShape WecomConfig TrimFacts.

(** X14. [normalizeAccountId] never returns an empty or padded id - a
    missing or blank id becomes ["default"] - and normalising twice is the
    same as normalising once. *)
Theorem normalizeAccountId_normal raw :
  normalizeAccountId raw <> EmptyString /\
  trim (normalizeAccountId raw) = normalizeAccountId raw /\
  normalizeAccountId (Some (normalizeAccountId raw)) = normalizeAccountId raw /\
  (trim (default EmptyString raw) = EmptyString ->
   normalizeAccountId raw = DEFAULT_ACCOUNT_ID).
Proof.
  unfold normalizeAccountId. cbv zeta.
  destruct (trim (default EmptyString raw)) as [|c r] eqn:E; simpl truthy; cbv iota.
  - by repeat split.
  - assert (Ht : trim (String c r) = String c r) by (rewrite <- E; apply trim_idem).
    split; [done|]. split; [done|]. split; [|done].
    simpl default. by rewrite Ht.
Qed.

Lemma normalizeAccountId_normal_witness :
  normalizeAccountId (Some "  "%string) = DEFAULT_ACCOUNT_ID.
Proof.
  exact (proj2 (proj2 (proj2 (normalizeAccountId_normal (Some "  "%string))))
           eq_refl).
Defined.

Lemma trimmedOrNone_tight s t : trimmedOrNone s = Some t -> Tight t.
Proof.
  unfold trimmedOrNone. destruct s as [s|]; [|done].
  destruct (truthy (trim s)) eqn:E; [|done]. intros [= <-].
  apply trim_tight. by destruct (trim s).
Qed.

Section ConfigFacts.

Variable number : Type.
Variable truthyNumber : number -> bool.
Variable Number_ : string -> number.
Variable localeSort : list string -> list string.

Local Abbreviation resolve := (resolveWecomAppAccount truthyNumber Number_).

(** X15. Only the default account reads the environment: for an account
    id that does not normalise to ["default"], the resolved account is the
    same under every environment. *)
Theorem environment_only_for_default env env' (cfg : PluginConfig number) accountId :
  normalizeAccountId accountId <> DEFAULT_ACCOUNT_ID ->
  resolve env cfg accountId = resolve env' cfg accountId.
Proof.
  intros Hne. unfold resolveWecomAppAccount. cbv zeta.
  by rewrite (proj2 (String.eqb_neq _ _) Hne).
Qed.

(** X16. A resolved credential is never blank or padded: [token],
    [encodingAESKey], [corpId], [corpSecret] and [name], when present, are
    non-empty and trimmed, whether they come from the configuration or from
    the environment; [receiveId] is trimmed; and [configured] respectively
    [canSendActive] hold only when the credentials they stand for are
    present. *)
Theorem resolved_credentials_shape env (cfg : PluginConfig number) accountId :
  let r := resolve env cfg accountId in
  (forall s, r_token r = Some s -> Tight s) /\
  (forall s, r_encodingAESKey r = Some s -> Tight s) /\
  (forall s, r_corpId r = Some s -> Tight s) /\
  (forall s, r_corpSecret r = Some s -> Tight s) /\
  (forall s, r_name r = Some s -> Tight s) /\
  trim (r_receiveId r) = r_receiveId r /\
  (r_configured r = true ->
     is_Some (r_token r) /\ is_Some (r_encodingAESKey r)) /\
  (r_canSendActive r = true ->
     is_Some (r_corpId r) /\ is_Some (r_corpSecret r) /\
     exists n, r_agentId r = Some n /\ truthyNumber n = true).
Proof.
  cbv zeta. unfold resolveWecomAppAccount. cbv zeta. simpl.
  assert (Hor : forall a b s,
            orElse (trimmedOrNone a)
              (if String.eqb (normalizeAccountId accountId) DEFAULT_ACCOUNT_ID
               then trimmedOrNone b else None) = Some s -> Tight s).
  { intros a b s. destruct (trimmedOrNone a) eqn:Ea; simpl.
    - intros [= <-]. by apply (trimmedOrNone_tight a).
    - destruct (String.eqb _ _); [|done]. apply trimmedOrNone_tight. }
  do 4 (split; [intros s; apply Hor|]).
  split; [intros s; apply trimmedOrNone_tight|].
  split; [destruct (valueOf _); [apply trim_idem | done]|].
  split.
  - intros [H1 H2]%andb_true_iff.
    apply bool_decide_eq_true in H1. by apply bool_decide_eq_true in H2.
  - intros [[H1 H2]%andb_true_iff H3]%andb_true_iff.
    apply bool_decide_eq_true in H1. apply bool_decide_eq_true in H2.
    split; [done|]. split; [done|].
    match type of H3 with
    | match ?x with _ => _ end = true => destruct x as [n|]; [|done]
    end.
    by exists n.
Qed.

(** X17. An account's own settings lie over the channel's, key by key.
    A non-blank [token] of the account is the resolved token, whatever the
    channel and the environment say; an account that has the key [token]
    with the value [undefined] hides the channel's token, so that a
    non-default account is left without token and not configured; an
    account without the key inherits a non-blank channel token. *)
Theorem account_token_over_channel env (c : WecomAppConfig number) accs accountId acc :
  accounts c = Value accs ->
  lookupAccount accs (normalizeAccountId accountId) = Some acc ->
  let r := resolve env (Some c) accountId in
  (forall s, token acc = Value s -> truthy (trim s) = true ->
     r_token r = Some (trim s)) /\
  (token acc = NoValue -> normalizeAccountId accountId <> DEFAULT_ACCOUNT_ID ->
     r_token r = None /\ r_configured r = false) /\
  (forall s, token acc = NoKey -> token (settings c) = Value s ->
     truthy (trim s) = true -> r_token r = Some (trim s)).
Proof.
  intros Haccs Hacc. cbv zeta.
  unfold resolveWecomAppAccount, mergeWecomAppAccountConfig,
    resolveAccountConfig, accountsOf. cbv zeta. simpl.
  rewrite Haccs. simpl. rewrite Hacc. simpl. split; [|split].
  - intros s -> Hs. simpl. by rewrite Hs.
  - intros -> Hne. simpl. by rewrite (proj2 (String.eqb_neq _ _) Hne).
  - intros s -> -> Hs. simpl. by rewrite Hs.
Qed.

(** X18. Disabling the channel disables every account: when the
    channel-level [enabled] is [false], each resolved account is disabled,
    whatever its own [enabled] says, and no account is listed as enabled. *)
Theorem disabled_channel_disables_all env (c : WecomAppConfig number) :
  enabled (settings c) = Value false ->
  (forall accountId, r_enabled (resolve env (Some c) accountId) = false) /\
  listEnabledWecomAppAccounts truthyNumber Number_ localeSort env (Some c) = [].
Proof.
  intros Hoff.
  assert (Hall : forall accountId,
            r_enabled (resolve env (Some c) accountId) = false).
  { intros accountId. unfold resolveWecomAppAccount. cbv zeta. simpl.
    by rewrite Hoff. }
  split; [done|]. unfold listEnabledWecomAppAccounts.
  induction (listWecomAppAccountIds localeSort (Some c)) as [|x l IH];
    [done|].
  simpl. rewrite filter_cons_False; [done|]. by rewrite Hall.
Qed.

Hypothesis localeSort_permutes : forall l, localeSort l ≡ₚ l.

Lemma listConfiguredAccountIds_truthy (cfg : PluginConfig number) id :
  id ∈ listConfiguredAccountIds cfg -> id <> EmptyString.
Proof.
  unfold listConfiguredAccountIds. destruct (accountsOf cfg) as [accs|].
  - intros [H _]%list_elem_of_filter. by destruct id.
  - by intros ?%elem_of_nil.
Qed.

Lemma listWecomAppAccountIds_elem (cfg : PluginConfig number) id :
  id ∈ listWecomAppAccountIds localeSort cfg <->
  (listConfiguredAccountIds cfg = [] /\ id = DEFAULT_ACCOUNT_ID) \/
  id ∈ listConfiguredAccountIds cfg.
Proof.
  unfold listWecomAppAccountIds. cbv zeta.
  destruct (listConfiguredAccountIds cfg) as [|x l] eqn:E.
  - simpl. rewrite list_elem_of_singleton. split.
    + intros ->. by left.
    + intros [[_ ->]|H]; [done | by apply elem_of_nil in H].
  - change (Z.of_nat (List.length (x :: l)) =? 0)%Z with false. cbv iota.
    rewrite (localeSort_permutes (x :: l)). split; [by right|].
    by intros [[? _]|?].
Qed.

Lemma account_ids_listed_aux (cfg : PluginConfig number) :
  listWecomAppAccountIds localeSort cfg <> [] /\
  (forall id, id ∈ listWecomAppAccountIds localeSort cfg -> id <> EmptyString) /\
  (listConfiguredAccountIds cfg = [] ->
     listWecomAppAccountIds localeSort cfg = [DEFAULT_ACCOUNT_ID]) /\
  (listConfiguredAccountIds cfg <> [] ->
     forall id, id ∈ listWecomAppAccountIds localeSort cfg <->
                id ∈ listConfiguredAccountIds cfg).
Proof.
  split; [|split; [|split]].
  - unfold listWecomAppAccountIds. cbv zeta.
    destruct (listConfiguredAccountIds cfg) as [|x l] eqn:E; [done|].
    change (Z.of_nat (List.length (x :: l)) =? 0)%Z with false. cbv iota.
    intros H. pose proof (localeSort_permutes (x :: l)) as Hp.
    rewrite H in Hp. by apply Permutation_nil_cons in Hp.
  - intros id [[_ ->]|H]%listWecomAppAccountIds_elem; [done|].
    by apply (listConfiguredAccountIds_truthy cfg).
  - intros H. unfold listWecomAppAccountIds. by rewrite H.
  - intros Hne id. rewrite listWecomAppAccountIds_elem. split; [|by right].
    by intros [[? _]|?].
Qed.

(** X19. The list of account ids is never empty and never holds an empty
    id: it is ["default"] alone when no account with a non-empty name is
    configured, and otherwise holds exactly the configured names. *)
Theorem account_ids_listed (cfg : PluginConfig number) :
  listWecomAppAccountIds localeSort cfg <> [] /\
  (forall id, id ∈ listWecomAppAccountIds localeSort cfg -> id <> EmptyString) /\
  (listConfiguredAccountIds cfg = [] ->
     listWecomAppAccountIds localeSort cfg = [DEFAULT_ACCOUNT_ID]) /\
  (listConfiguredAccountIds cfg <> [] ->
     forall id, id ∈ listWecomAppAccountIds localeSort cfg <->
                id ∈ listConfiguredAccountIds cfg).
Proof. apply account_ids_listed_aux. Qed.

Lemma existsb_eqb_elem k (l : list string) :
  existsb (String.eqb k) l = true <-> k ∈ l.
Proof.
  rewrite existsb_exists, list_elem_of_In. split.
  - by intros (x & Hx & ->%String.eqb_eq).
  - intros H. exists k. split; [done | apply String.eqb_refl].
Qed.

(** X20. The default account id is never empty.  A non-blank
    [defaultAccount] is returned trimmed, whether or not such an account is
    configured; without one the result is one of the listed ids, and it is
    ["default"] whenever that is listed. *)
Theorem default_account_id_resolved (cfg : PluginConfig number) :
  let d := resolveDefaultWecomAppAccountId localeSort cfg in
  let wanted := trimmedOrNone (cfg ≫= fun c => valueOf (defaultAccount c)) in
  d <> EmptyString /\
  (forall w, wanted = Some w -> d = w) /\
  (wanted = None -> d ∈ listWecomAppAccountIds localeSort cfg) /\
  (wanted = None ->
   DEFAULT_ACCOUNT_ID ∈ listWecomAppAccountIds localeSort cfg ->
   d = DEFAULT_ACCOUNT_ID).
Proof.
  cbv zeta. unfold resolveDefaultWecomAppAccountId. cbv zeta.
  destruct (trimmedOrNone _) as [w|] eqn:Ew.
  - split; [apply (trimmedOrNone_tight _ _ Ew)|].
    split; [by intros ? [= <-]|]. by split.
  - destruct (account_ids_listed_aux cfg) as (Hne & Hids & _).
    destruct (existsb _ _) eqn:Ex.
    + split; [done|]. split; [done|]. split; [|done].
      intros _. by apply existsb_eqb_elem.
    + destruct (listWecomAppAccountIds localeSort cfg) as [|x l] eqn:El;
        [done|].
      simpl. split; [apply Hids, list_elem_of_here|]. split; [done|].
      split; [intros _; apply list_elem_of_here|].
      intros _ Hd%existsb_eqb_elem. by rewrite Hd in Ex.
Qed.

End ConfigFacts.

Import WecomSamples.

Lemma environment_only_for_default_witness :
  resolveWecomAppAccount truthyZ zeroOf fullEnv (Some (channel true))
    (Some " sales "%string) =
  resolveWecomAppAccount truthyZ zeroOf noEnv (Some (channel true))
    (Some " sales "%string).
Proof.
  exact (environment_only_for_default Z truthyZ zeroOf fullEnv noEnv
           (Some (channel true)) (Some " sales "%string) ltac:(discriminate)).
Defined.

Lemma resolved_credentials_shape_witness :
  Tight "s3cret" /\ Tight "env-corp".
Proof.
  split.
  - exact (proj1 (resolved_credentials_shape Z truthyZ zeroOf noEnv
                    (Some (channel true)) (Some "sales"%string))
             "s3cret"%string eq_refl).
  - exact (proj1 (proj2 (proj2 (resolved_credentials_shape Z truthyZ zeroOf
                                  fullEnv None None)))
             "env-corp"%string eq_refl).
Defined.

Lemma account_token_over_channel_witness :
  r_token (resolveWecomAppAccount truthyZ zeroOf fullEnv (Some (channel true))
             (Some "sales"%string)) = Some "s3cret"%string /\
  r_token (resolveWecomAppAccount truthyZ zeroOf fullEnv (Some (channel true))
             (Some "ops"%string)) = None.
Proof.
  split.
  - exact (proj1 (account_token_over_channel Z truthyZ zeroOf fullEnv
                    (channel true) _ (Some "sales"%string) sales
                    eq_refl eq_refl)
             " s3cret "%string eq_refl eq_refl).
  - exact (proj1 (proj1 (proj2 (account_token_over_channel Z truthyZ zeroOf
                                  fullEnv (channel true) _ (Some "ops"%string) ops
                                  eq_refl eq_refl))
                    eq_refl ltac:(discriminate))).
Defined.

Lemma disabled_channel_disables_all_witness :
  listEnabledWecomAppAccounts truthyZ zeroOf keepOrder fullEnv
    (Some (channel false)) = [].
Proof.
  exact (proj2 (disabled_channel_disables_all Z truthyZ zeroOf keepOrder fullEnv
                  (channel false) eq_refl)).
Defined.

Lemma keepOrder_permutes l : keepOrder l ≡ₚ l.
Proof. reflexivity. Defined.

Lemma account_ids_listed_witness :
  listWecomAppAccountIds keepOrder (@None (WecomAppConfig Z)) =
  [DEFAULT_ACCOUNT_ID].
Proof.
  exact (proj1 (proj2 (proj2 (account_ids_listed Z keepOrder keepOrder_permutes
                                None))) eq_refl).
Defined.

Lemma default_account_id_resolved_witness :
  resolveDefaultWecomAppAccountId keepOrder (Some (channel true)) = "ghost"%string.
Proof.
  exact (proj1 (proj2 (default_account_id_resolved Z keepOrder
                         keepOrder_permutes (Some (channel true))))
           "ghost"%string eq_refl).
Defined.

End WecomConfigProofs.

(** * Properties of the access-token cache *)
Module WecomApiProofs.
Import JsString WecomConfig WecomApi.

Section ApiFacts.

Variable number : Type.
Variable showNumber : number -> string.
Variable isZero : number -> bool.

Local Abbreviation getToken := (getAccessToken showNumber isZero).
Local Abbreviation keyOf := (cacheKey showNumber).

Lemma getAccessToken_fetching account cache now corpId corpSecret continue :
  getToken account cache now = Fetching corpId corpSecret continue ->
  truthyProp (r_corpId account) = Some corpId /\
  truthyProp (r_corpSecret account) = Some corpSecret /\
  continue = afterFetch isZero (keyOf account) /\
  (forall cached, cache !! keyOf account = Some cached ->
                  (expiresAt cached <= now)%Z).
Proof.
  unfold getAccessToken.
  destruct (truthyProp (r_corpId account)) as [i|]; [|done].
  destruct (truthyProp (r_corpSecret account)) as [s|]; [|done].
  cbv zeta. destruct (cache !! keyOf account) as [cached|] eqn:E.
  - destruct (now <? expiresAt cached)%Z eqn:Et; [done|].
    intros [= <- <- <-]. repeat split; try done.
    intros ? [= <-]. by apply Z.ltb_ge.
  - intros [= <- <- <-]. by repeat split.
Qed.

Lemma getAccessToken_stored account cache t expires now :
  is_Some (truthyProp (r_corpId account)) ->
  is_Some (truthyProp (r_corpSecret account)) ->
  cache !! keyOf account = Some (mkEntry t expires) ->
  (now < expires)%Z ->
  getToken account cache now = Finished (Token t) cache.
Proof.
  intros [i Hi] [s Hs] Hc Hnow. unfold getAccessToken.
  rewrite Hi, Hs. cbv zeta. rewrite Hc. simpl.
  by rewrite (proj2 (Z.ltb_lt _ _) Hnow).
Qed.

(** X21. A token that was fetched is served from the cache for 6,900,000
    ms: when a call waits for an answer and the answer carries [errcode] 0
    and a non-empty [access_token], the call returns that token, and from
    the cache it leaves every later call for the same account made less
    than [ACCESS_TOKEN_TTL_MS] after the answer returns the same token at
    once, while a call made at or after that time asks again. *)
Theorem fetched_token_is_cached account cache now corpId corpSecret continue
    data n t answered cacheThen :
  getToken account cache now = Fetching corpId corpSecret continue ->
  errcode data = Some n -> isZero n = true ->
  access_token data = Some t -> t <> EmptyString ->
  exists cacheAfter,
    continue (Some data) answered cacheThen = (Token t, cacheAfter) /\
    (forall later, (later < answered + 6900000)%Z ->
       getToken account cacheAfter later = Finished (Token t) cacheAfter) /\
    (forall later, (answered + 6900000 <= later)%Z ->
       getToken account cacheAfter later =
       Fetching corpId corpSecret (afterFetch isZero (keyOf account))).
Proof.
  intros (Hi & Hs & -> & _)%getAccessToken_fetching Hcode Hzero Htok Hne.
  eexists. split; [|split].
  - unfold afterFetch. rewrite Hcode, Hzero, Htok. simpl.
    destruct t; [done|]. reflexivity.
  - intros later Hlater.
    apply (getAccessToken_stored account _ t (answered + ACCESS_TOKEN_TTL_MS));
      [by eexists | by eexists | apply lookup_insert_eq |].
    unfold ACCESS_TOKEN_TTL_MS. lia.
  - intros later Hlater. unfold getAccessToken. rewrite Hi, Hs. cbv zeta.
    rewrite lookup_insert_eq. simpl.
    replace (later <? answered + ACCESS_TOKEN_TTL_MS)%Z with false; [done|].
    symmetry. apply Z.ltb_ge. unfold ACCESS_TOKEN_TTL_MS. lia.
Qed.

(** X22. Only a successful answer changes the cache: a call that finishes
    at once leaves it as it was, and so does a call whose answer is missing
    or carries an error or no token; a call that returns a fetched token
    changes the entry of its own key and nothing else. *)
Theorem cache_changes_only_on_success account cache now :
  match getToken account cache now with
  | Finished _ cache' => cache' = cache
  | Fetching _ _ continue =>
      forall answer answered cacheThen,
        match continue answer answered cacheThen with
        | (Failed _, cacheAfter) => cacheAfter = cacheThen
        | (Token t, cacheAfter) =>
            cacheAfter !! keyOf account =
              Some (mkEntry t (answered + ACCESS_TOKEN_TTL_MS)) /\
            forall key, key <> keyOf account ->
                        cacheAfter !! key = cacheThen !! key
        end
  end.
Proof.
  destruct (getToken account cache now) as [r c|i s k] eqn:E.
  - unfold getAccessToken in E.
    destruct (truthyProp (r_corpId account)); [|by injection E as <- <-].
    destruct (truthyProp (r_corpSecret account)); [|by injection E as <- <-].
    cbv zeta in E. destruct (cache !! keyOf account) as [cached|]; [|done].
    destruct (now <? expiresAt cached)%Z; [|done]. by injection E as <- <-.
  - apply getAccessToken_fetching in E as (_ & _ & -> & _).
    intros answer answered cacheThen. unfold afterFetch.
    destruct answer as [data|]; [|done].
    destruct (errcode data) as [n|]; [|done].
    destruct (isZero n); [|done].
    destruct (truthyProp (access_token data)); [|done].
    split; [apply lookup_insert_eq|]. intros key Hkey.
    by apply lookup_insert_ne.
Qed.

(** X23. The cache key is built from [corpId] and [agentId] alone: a token
    cached for one account is served to every account with the same
    [corpId] and [agentId], whatever its [corpSecret], as long as it has
    one. *)
Theorem cached_token_ignores_secret account other cache now t :
  r_corpId other = r_corpId account ->
  r_agentId other = r_agentId account ->
  is_Some (truthyProp (r_corpSecret other)) ->
  getToken account cache now = Finished (Token t) cache ->
  getToken other cache now = Finished (Token t) cache.
Proof.
  intros Hc Ha [s' Hs'] H. unfold getAccessToken in *.
  unfold cacheKey in *. rewrite Hc, Ha, Hs'.
  destruct (truthyProp (r_corpId account)); [|done].
  destruct (truthyProp (r_corpSecret account)); [|done].
  cbv zeta in *.
  destruct (cache !! _) as [cached|]; [|done].
  by destruct (now <? expiresAt cached)%Z.
Qed.

(** X24. After [clearAccessTokenCache] the account's next call never
    returns a cached token, at whatever time it is made, while an account
    with another key is still served what was cached for it. *)
Theorem cleared_account_fetches_again account other cache now t :
  (forall t', getToken account (clearAccessTokenCache showNumber account cache) now
              <> Finished (Token t')
                   (clearAccessTokenCache showNumber account cache)) /\
  (keyOf other <> keyOf account ->
   getToken other cache now = Finished (Token t) cache ->
   getToken other (clearAccessTokenCache showNumber account cache) now =
   Finished (Token t) (clearAccessTokenCache showNumber account cache)).
Proof.
  unfold clearAccessTokenCache. split.
  - intros t'. unfold getAccessToken.
    destruct (truthyProp (r_corpId account)); [|done].
    destruct (truthyProp (r_corpSecret account)); [|done].
    cbv zeta. by rewrite lookup_delete_eq.
  - intros Hkey. unfold getAccessToken.
    destruct (truthyProp (r_corpId other)); [|done].
    destruct (truthyProp (r_corpSecret other)); [|done].
    cbv zeta. rewrite lookup_delete_ne by done.
    destruct (cache !! keyOf other) as [cached|]; [|done].
    destruct (now <? expiresAt cached)%Z; [|done]. by intros [= <-].
Qed.

End ApiFacts.

Import WecomApiSamples.

Lemma fetched_token_is_cached_witness :
  exists cacheAfter,
    afterFetch isZeroZ (cacheKey showAgent acme) (Some goodReply) 1000 ∅ =
    (Token "T-1"%string, cacheAfter) /\
    (forall later, (later < 1000 + 6900000)%Z ->
       getAccessToken showAgent isZeroZ acme cacheAfter later =
       Finished (Token "T-1"%string) cacheAfter) /\
    (forall later, (1000 + 6900000 <= later)%Z ->
       getAccessToken showAgent isZeroZ acme cacheAfter later =
       Fetching "acme" "old-secret" (afterFetch isZeroZ (cacheKey showAgent acme))).
Proof.
  exact (fetched_token_is_cached Z showAgent isZeroZ acme ∅ 0
           "acme" "old-secret" _ goodReply 0%Z "T-1" 1000 ∅
           eq_refl eq_refl eq_refl eq_refl ltac:(discriminate)).
Defined.

Lemma cache_changes_only_on_success_witness :
  match getAccessToken showAgent isZeroZ acme ∅ 0 with
  | Finished _ cache' => cache' = ∅
  | Fetching _ _ continue =>
      forall answer answered cacheThen,
        match continue answer answered cacheThen with
        | (Failed _, cacheAfter) => cacheAfter = cacheThen
        | (Token t, cacheAfter) =>
            cacheAfter !! cacheKey showAgent acme =
              Some (mkEntry t (answered + ACCESS_TOKEN_TTL_MS)) /\
            forall key, key <> cacheKey showAgent acme ->
                        cacheAfter !! key = cacheThen !! key
        end
  end.
Proof.
  exact (cache_changes_only_on_success Z showAgent isZeroZ acme ∅ 0).
Defined.

Lemma cached_token_ignores_secret_witness :
  getAccessToken showAgent isZeroZ acmeRotated warmCache 499 =
  Finished (Token "T-2"%string) warmCache.
Proof.
  exact (cached_token_ignores_secret Z showAgent isZeroZ acme acmeRotated
           warmCache 499 "T-2" eq_refl eq_refl
           (ex_intro _ "new-secret"%string eq_refl) eq_refl).
Defined.

Lemma cleared_account_fetches_again_witness :
  getAccessToken showAgent isZeroZ acmeOther
    (clearAccessTokenCache showAgent acme warmCache) 499 =
  Finished (Token "T-3"%string) (clearAccessTokenCache showAgent acme warmCache).
Proof.
  exact (proj2 (cleared_account_fetches_again Z showAgent isZeroZ acme acmeOther
                  warmCache 499 "T-3")
           ltac:(discriminate) eq_refl).
Defined.

End WecomApiProofs.

(** * Properties of the message sending *)
Module WecomSendProofs.
Import JsString WecomConfig WecomApi WecomSend.

Section SendFacts.

Variable number : Type.
Variable showNumber : number -> string.
Variable isZero : number -> bool.
Variable minusOne : number.
Variable stripMarkdown : string -> string.

Lemma issues_address token0 msgtype_ content_ account target token
    (payload : Payload number) :
  Issues (address isZero minusOne token0 msgtype_ content_ account target)
    token payload ->
  token = token0 /\ msgtype payload = msgtype_ /\ content payload = content_ /\
  agentid payload = r_agentId account /\ Addressed target (recipient payload).
Proof.
  unfold address, Addressed.
  destruct (truthyProp (chatid target)) as [c|] eqn:Ec.
  - intros H. inversion H; subst. simpl. repeat split; eauto.
  - destruct (truthyProp (userId target)) as [u|] eqn:Eu.
    + intros H. inversion H; subst. simpl. repeat split; eauto.
    + intros H. inversion H.
Qed.

Lemma afterFetch_token key answer answered cacheThen t cacheAfter :
  afterFetch (number := number) isZero key answer answered cacheThen =
    (Token t, cacheAfter) ->
  t <> EmptyString.
Proof.
  unfold afterFetch. destruct answer as [data|]; [|done].
  destruct (match errcode data with Some n => isZero n | None => false end);
    [|done].
  unfold truthyProp. destruct (access_token data) as [[|c r]|]; try done.
  by intros [= <- _].
Qed.

Lemma issues_withToken account cache now rest token (payload : Payload number) :
  Issues (withToken showNumber isZero account cache now rest) token payload ->
  exists t, Issues (rest t) token payload /\ Obtained showNumber account cache now t.
Proof.
  unfold withToken, Obtained.
  destruct (getAccessToken showNumber isZero account cache now)
    as [[t|e] c|i s k] eqn:E.
  - intros H. exists t. split; [done|]. left.
    unfold getAccessToken in E.
    destruct (truthyProp (r_corpId account)); [|done].
    destruct (truthyProp (r_corpSecret account)); [|done].
    cbv zeta in E.
    destruct (cache !! cacheKey showNumber account) as [cached|]; [|done].
    destruct (now <? expiresAt cached)%Z eqn:Et; [|done].
    injection E as <- _. exists cached. apply Z.ltb_lt in Et. by repeat split.
  - intros H. inversion H.
  - intros H. inversion H as [|? ? ? answer answered cacheThen ? ? Hin]; subst.
    simpl in Hin.
    assert (Hk : k = afterFetch isZero (cacheKey showNumber account)).
    { unfold getAccessToken in E.
      destruct (truthyProp (r_corpId account)); [|done].
      destruct (truthyProp (r_corpSecret account)); [|done].
      cbv zeta in E.
      destruct (cache !! cacheKey showNumber account) as [cached|];
        [destruct (now <? expiresAt cached)%Z; [done|]|];
        by injection E as _ _ <-. }
    subst k.
    destruct (afterFetch isZero (cacheKey showNumber account) answer answered
                cacheThen) as [[t|e] cacheAfter] eqn:Ea; simpl in Hin.
    + exists t. split; [done|]. right. by apply afterFetch_token in Ea.
    + inversion Hin.
Qed.

Lemma issues_sendWecomAppMessage account target message cache now token
    (payload : Payload number) :
  Issues (sendWecomAppMessage showNumber isZero minusOne stripMarkdown account
            target message cache now) token payload ->
  r_canSendActive account = true /\
  Obtained showNumber account cache now token /\
  msgtype payload = "text"%string /\
  content payload = stripMarkdown message /\
  agentid payload = r_agentId account /\
  Addressed target (recipient payload).
Proof.
  unfold sendWecomAppMessage.
  destruct (r_canSendActive account); simpl; [|intros H; inversion H].
  intros (t & Hi & Ht)%issues_withToken.
  apply issues_address in Hi as (-> & ? & ? & ? & ?). by repeat split.
Qed.

Lemma issues_sendWecomAppMarkdownMessage account target markdownContent cache
    now token (payload : Payload number) :
  Issues (sendWecomAppMarkdownMessage showNumber isZero minusOne account target
            markdownContent cache now) token payload ->
  r_canSendActive account = true /\
  Obtained showNumber account cache now token /\
  msgtype payload = "markdown"%string /\
  content payload = markdownContent /\
  agentid payload = r_agentId account /\
  Addressed target (recipient payload).
Proof.
  unfold sendWecomAppMarkdownMessage.
  destruct (r_canSendActive account); simpl; [|intros H; inversion H].
  intros (t & Hi & Ht)%issues_withToken.
  apply issues_address in Hi as (-> & ? & ? & ? & ?). by repeat split.
Qed.

(** X25. Whatever the cache holds and whatever [gettoken] answers, a
    request to [message/send] that [sendWecomAppMessage] comes to make is
    made for an account that can send actively, with a token taken from an
    unexpired cache entry or from a fresh non-empty answer, and carries the
    account's [agentId], the type ["text"], the message after
    [stripMarkdown], and one recipient: the chat when [chatid] is set, the
    user otherwise. *)
Theorem text_requests_are_well_formed account target message cache now token
    (payload : Payload number) :
  Issues (sendWecomAppMessage showNumber isZero minusOne stripMarkdown account
            target message cache now) token payload ->
  r_canSendActive account = true /\
  Obtained showNumber account cache now token /\
  msgtype payload = "text"%string /\
  content payload = stripMarkdown message /\
  agentid payload = r_agentId account /\
  Addressed target (recipient payload).
Proof. apply issues_sendWecomAppMessage. Qed.

(** X26. [sendWecomAppMarkdownMessage] makes its requests under the same
    conditions, with the type ["markdown"] and the content as given. *)
Theorem markdown_requests_are_well_formed account target markdownContent cache
    now token (payload : Payload number) :
  Issues (sendWecomAppMarkdownMessage showNumber isZero minusOne account target
            markdownContent cache now) token payload ->
  r_canSendActive account = true /\
  Obtained showNumber account cache now token /\
  msgtype payload = "markdown"%string /\
  content payload = markdownContent /\
  agentid payload = r_agentId account /\
  Addressed target (recipient payload).
Proof. apply issues_sendWecomAppMarkdownMessage. Qed.

(** X27. Without a target - neither [chatid] nor [userId] set - no message
    is ever sent, by either function; yet for an account that can send and
    has no unexpired token cached, the call still asks [gettoken] for one
    before it reports the missing target. *)
Theorem no_target_sends_nothing account target message cache now :
  truthyProp (chatid target) = None ->
  truthyProp (userId target) = None ->
  (forall token (payload : Payload number),
     ~ Issues (sendWecomAppMessage showNumber isZero minusOne stripMarkdown
                 account target message cache now) token payload) /\
  (forall token (payload : Payload number),
     ~ Issues (sendWecomAppMarkdownMessage showNumber isZero minusOne
                 account target message cache now) token payload) /\
  (r_canSendActive account = true ->
   forall corpId corpSecret continue,
     getAccessToken showNumber isZero account cache now =
       Fetching corpId corpSecret continue ->
     exists continue',
       sendWecomAppMessage showNumber isZero minusOne stripMarkdown account
         target message cache now = AwaitingToken corpId corpSecret continue').
Proof.
  intros Hc Hu.
  assert (Hno : forall to, ~ Addressed target to).
  { intros to [(c & Hc' & _) | (_ & u & Hu' & _)]; congruence. }
  split; [|split].
  - intros token payload (_ & _ & _ & _ & _ & H)%issues_sendWecomAppMessage.
    by apply Hno in H.
  - intros token payload
      (_ & _ & _ & _ & _ & H)%issues_sendWecomAppMarkdownMessage.
    by apply Hno in H.
  - intros Hcan corpId corpSecret continue Hfetch.
    unfold sendWecomAppMessage, withToken. rewrite Hcan, Hfetch. simpl.
    by eexists.
Qed.

End SendFacts.

Import WecomApiSamples WecomSendSamples.

Lemma text_requests_are_well_formed_witness :
  r_canSendActive acme = true /\
  Obtained showAgent acme warmCache 499 "T-2" /\
  msgtype (chatPayload "text") = "text"%string /\
  content (chatPayload "text") = keepText "**hi**" /\
  agentid (chatPayload "text") = r_agentId acme /\
  Addressed bothTargets (recipient (chatPayload "text")).
Proof.
  exact (text_requests_are_well_formed Z showAgent isZeroZ (-1)%Z keepText
           acme bothTargets "**hi**" warmCache 499 "T-2" (chatPayload "text")
           (issues_now Z "T-2" (chatPayload "text") (reportAnswer isZeroZ))).
Defined.

Lemma markdown_requests_are_well_formed_witness :
  r_canSendActive acme = true /\
  Obtained showAgent acme warmCache 499 "T-2" /\
  msgtype (chatPayload "markdown") = "markdown"%string /\
  content (chatPayload "markdown") = "**hi**"%string /\
  agentid (chatPayload "markdown") = r_agentId acme /\
  Addressed bothTargets (recipient (chatPayload "markdown")).
Proof.
  exact (markdown_requests_are_well_formed Z showAgent isZeroZ (-1)%Z
           acme bothTargets "**hi**" warmCache 499 "T-2" (chatPayload "markdown")
           (issues_now Z "T-2" (chatPayload "markdown") (reportAnswer isZeroZ))).
Defined.

Lemma no_target_sends_nothing_witness :
  (forall token (payload : Payload Z),
     ~ Issues (sendWecomAppMessage showAgent isZeroZ (-1)%Z keepText
                 acme noTarget "**hi**" ∅ 0) token payload) /\
  exists continue',
    sendWecomAppMessage showAgent isZeroZ (-1)%Z keepText acme noTarget
      "**hi**" ∅ 0 = AwaitingToken "acme" "old-secret" continue'.
Proof.
  pose proof (no_target_sends_nothing Z showAgent isZeroZ (-1)%Z keepText
                acme noTarget "**hi**" ∅ 0 eq_refl eq_refl) as (H1 & _ & H3).
  split; [exact H1|]. exact (H3 eq_refl _ _ _ eq_refl).
Defined.

End WecomSendProofs.

(** * Properties of the query encoding *)
Module SignedQueryProofs.
Import JsString SignedQuery TrimFacts.

Ltac by_character c :=
  destruct c as [[] [] [] [] [] [] [] []];
  cbn - [append]; rewrite ?append_cons, ?append_nil_l;
  cbn - [append]; rewrite ?append_cons, ?append_nil_l; reflexivity.

(** What one character contributes to the encoded value. *)
Lemma encodeQueryValue_cons c r :
  encodeQueryValue (String c r) =
  encodeQueryValue (String c EmptyString) +:+ encodeQueryValue r.
Proof. unfold encodeQueryValue. by_character c. Qed.

Lemma allChars_app p a b :
  allChars p (a +:+ b) = allChars p a && allChars p b.
Proof.
  induction a as [|c r IH]; [done|].
  rewrite append_cons. simpl. by rewrite IH, andb_assoc.
Qed.

Lemma encoded_character_safe c :
  allChars querySafe (encodeQueryValue (String c EmptyString)) = true.
Proof. destruct c as [[] [] [] [] [] [] [] []]; reflexivity. Qed.

(** X28. An encoded query value is made of letters, digits, [- _ . ~],
    [%] and [+] only: no space, no [&], [=], [?], [#] or [/], and none of
    [! ' ( ) *] is left in it. *)
Theorem encoded_value_is_query_safe value :
  allChars querySafe (encodeQueryValue value) = true.
Proof.
  induction value as [|c r IH]; [done|].
  by rewrite encodeQueryValue_cons, allChars_app, encoded_character_safe, IH.
Qed.

Lemma decodeHead_encoded c rest :
  decodeHead (encodeQueryValue (String c EmptyString) +:+ rest) = Some (c, rest).
Proof. unfold encodeQueryValue. by_character c. Qed.

Lemma decodeHead_encodeQueryValue value :
  decodeHead (encodeQueryValue value) =
  match value with
  | EmptyString => None
  | String c r => Some (c, encodeQueryValue r)
  end.
Proof.
  destruct value as [|c r]; [done|].
  by rewrite encodeQueryValue_cons, decodeHead_encoded.
Qed.

(** X29. The encoding loses nothing: two values with the same encoding
    are the same value.  In particular a space, which becomes [+], is never
    confused with a plus sign, which becomes [%2B]. *)
Theorem encodeQueryValue_injective a b :
  encodeQueryValue a = encodeQueryValue b -> a = b.
Proof.
  revert b; induction a as [|c r IH]; intros b H;
    apply (f_equal decodeHead) in H;
    rewrite !decodeHead_encodeQueryValue in H.
  - by destruct b.
  - destruct b as [|d r']; [done|]. injection H as -> H. by rewrite (IH r').
Qed.

Lemma encodeQueryValue_injective_witness :
  encodeQueryValue "a b" = "a+b"%string /\
  encodeQueryValue "a+b" = "a%2Bb"%string /\
  ("16k_zh" = "16k_zh")%string.
Proof.
  split; [reflexivity|]. split; [reflexivity|].
  exact (encodeQueryValue_injective "16k_zh" "16k_zh" eq_refl).
Defined.

Example encodeQueryValue_marks :
  encodeQueryValue "it's (me)!*" = "it%27s+%28me%29%21%2A"%string.
Proof. reflexivity. Qed.

End SignedQueryProofs.
